(** * BadgerDB buffer manager (src/BufMgr/src/buffer_modified.cpp)

    A shallow embedding of [badgerdb::BufMgr]: the frame descriptor table,
    the page pool, the page index and the clock hand are the fields of a
    record; every member function is a computation in a small state and
    exception monad over that record and the log of calls made to the
    [File] objects. *)

From Stdlib Require Import NArith List Lia Bool.
From stdpp Require Import base option list gmap numbers.

Local Open Scope N_scope.

(** ** Machine data *)

(** [std::uint32_t]: [FrameId] and [PageId] are both 32-bit unsigned. *)
Definition FrameId := N.
Definition PageId := N.

Definition wrap32 (n : N) : N := n mod 2 ^ 32.

(** [File*]: a file is known to the manager by the address of its object
    only; address [0] is the null pointer. *)
Definition File := N.
Definition NULL : File := 0.

(** [Page]: the page number it carries and its bytes. *)
Record Page := mkPage {
  page_number : PageId;
  page_bytes : list Byte.byte
}.

(** [Page()], the content of a pool slot nothing was stored in yet. *)
Definition Page_empty : Page := mkPage 0 [].

(** [Page*]: what a [Page*&] parameter can hold, either the address of a
    slot of [bufPool] or any other address. *)
Inductive PagePtr :=
| PtrOther (addr : N)
| PtrSlot (frame : FrameId).

(** ** Frame descriptors *)

(** Modelled from the spec: [class BufDesc] is declared in buffer.h, which
    is not part of the sources; these are the attributes section 3 lists
    and the code uses.  [pinCnt] is a count, never negative. *)
Record BufDesc := mkBufDesc {
  file : File;
  pageNo : PageId;
  frameNo : FrameId;
  pinCnt : N;
  dirty : bool;
  valid : bool;
  refbit : bool
}.

(** Modelled from the spec: [BufDesc::Clear] is declared in buffer.h, which
    is not part of the sources.  Section 4.1: reset sets valid=false,
    dirty=false, refBit=false, pinCount=0 and clears the file and page
    identity. *)
Definition BufDesc_Clear (d : BufDesc) : BufDesc :=
  {| file := NULL; pageNo := 0; frameNo := frameNo d; pinCnt := 0;
     dirty := false; valid := false; refbit := false |}.

(** Modelled from the spec: [BufDesc::Set] is declared in buffer.h, which
    is not part of the sources.  Section 4.1: install sets owningFile,
    pageNumber, valid=true, refBit=true, pinCount=1. *)
Definition BufDesc_Set (f : File) (p : PageId) (d : BufDesc) : BufDesc :=
  {| file := f; pageNo := p; frameNo := frameNo d; pinCnt := 1;
     dirty := dirty d; valid := true; refbit := true |}.

(** A freshly constructed descriptor (section 4.1: reset is what
    construction uses). *)
Definition BufDesc_new : BufDesc :=
  {| file := NULL; pageNo := 0; frameNo := 0; pinCnt := 0;
     dirty := false; valid := false; refbit := false |}.

Global Instance BufDesc_inhabited : Inhabited BufDesc := populate BufDesc_new.
Global Instance Page_inhabited : Inhabited Page := populate Page_empty.

Definition with_refbit (b : bool) (d : BufDesc) : BufDesc :=
  {| file := file d; pageNo := pageNo d; frameNo := frameNo d;
     pinCnt := pinCnt d; dirty := dirty d; valid := valid d; refbit := b |}.

Definition with_dirty (b : bool) (d : BufDesc) : BufDesc :=
  {| file := file d; pageNo := pageNo d; frameNo := frameNo d;
     pinCnt := pinCnt d; dirty := b; valid := valid d; refbit := refbit d |}.

Definition with_pinCnt (n : N) (d : BufDesc) : BufDesc :=
  {| file := file d; pageNo := pageNo d; frameNo := frameNo d;
     pinCnt := n; dirty := dirty d; valid := valid d; refbit := refbit d |}.

Definition with_valid (b : bool) (d : BufDesc) : BufDesc :=
  {| file := file d; pageNo := pageNo d; frameNo := frameNo d;
     pinCnt := pinCnt d; dirty := dirty d; valid := b; refbit := refbit d |}.

Definition with_frameNo (i : FrameId) (d : BufDesc) : BufDesc :=
  {| file := file d; pageNo := pageNo d; frameNo := i;
     pinCnt := pinCnt d; dirty := dirty d; valid := valid d; refbit := refbit d |}.

(** ** The manager and the world around it *)

Record BufMgr := mkBufMgr {
  numBufs : N;
  bufDescTable : list BufDesc;
  bufPool : list Page;
  (** Modelled from the spec: [BufHashTbl] is not part of the sources.
      Section 6: an exact-match directory from (file, page number) to a
      frame, with insert, lookup (NotFound when absent) and remove. *)
  hashTable : gmap (File * PageId) FrameId;
  clockHand : FrameId
}.

(** The calls the manager makes on [File] objects, in the order made. *)
Inductive FileCall :=
| CallReadPage (f : File) (p : PageId)
| CallWritePage (f : File) (pg : Page)
| CallAllocatePage (f : File)
| CallDeletePage (f : File) (p : PageId).

(** The [File] class is a collaborator outside this code.  What its
    [readPage] and [allocatePage] hand back is a function of the calls made
    so far. *)
Class FileBehaviour := {
  readPage_result : list FileCall → File → PageId → Page;
  allocatePage_result : list FileCall → File → Page
}.

Record World := mkWorld {
  mgr : BufMgr;
  calls : list FileCall
}.

(** ** Exceptions and the monad *)

Inductive Exn :=
| BufferExceededException
| PageNotPinnedException
| PagePinnedException
| BadBufferException
| HashNotFoundException.

Global Instance Exn_eq_dec : EqDecision Exn.
Proof. solve_decision. Defined.

Inductive Outcome (A : Type) :=
| Normal (a : A) (w : World)
| Raised (e : Exn) (w : World)
| OutOfFuel.
Arguments Normal {A} a w.
Arguments Raised {A} e w.
Arguments OutOfFuel {A}.

Definition M (A : Type) : Type := World → Outcome A.

Definition ret {A} (a : A) : M A := λ w, Normal a w.

Definition bind {A B} (m : M A) (k : A → M B) : M B :=
  λ w, match m w with
       | Normal a w' => k a w'
       | Raised e w' => Raised e w'
       | OutOfFuel => OutOfFuel
       end.

Definition throw {A} (e : Exn) : M A := λ w, Raised e w.

(** [try { m } catch (e0) { h }]: the handler starts from the state the
    manager was in when the exception left [m]. *)
Definition try_catch {A} (m : M A) (e0 : Exn) (h : M A) : M A :=
  λ w, match m w with
       | Raised e w' => if decide (e = e0) then h w' else Raised e w'
       | r => r
       end.

Definition gets {A} (proj : BufMgr → A) : M A := λ w, Normal (proj (mgr w)) w.

Definition modify (upd : BufMgr → BufMgr) : M unit :=
  λ w, Normal tt (mkWorld (upd (mgr w)) (calls w)).

Definition when (b : bool) (m : M unit) : M unit := if b then m else ret tt.

(** How a block of statements ends: with the function's [return], or by
    reaching its end, with the local it has set. *)
Inductive Ending (A : Type) :=
| FunctionReturns
| FallsThrough (a : A).
Arguments FunctionReturns {A}.
Arguments FallsThrough {A} a.

Declare Scope mgr_scope.
Delimit Scope mgr_scope with mgr.
Notation "x <- m ;; k" := (bind m (λ x, k))
  (at level 100, m at next level, right associativity) : mgr_scope.
Notation "m ;; k" := (bind m (λ _, k))
  (at level 100, right associativity) : mgr_scope.
Local Open Scope mgr_scope.

(** ** Access to the arrays

    [bufDescTable[i]] and [bufPool[i]] outside [0, numBufs) are undefined
    in C++.  Here a read outside gives a fresh descriptor and a write
    outside does nothing; the invariant [wf] below keeps every index the
    manager uses inside. *)

Definition desc_at (m : BufMgr) (i : FrameId) : BufDesc :=
  bufDescTable m !!! N.to_nat i.

Definition set_table (t : list BufDesc) (m : BufMgr) : BufMgr :=
  mkBufMgr (numBufs m) t (bufPool m) (hashTable m) (clockHand m).

Definition set_pool (p : list Page) (m : BufMgr) : BufMgr :=
  mkBufMgr (numBufs m) (bufDescTable m) p (hashTable m) (clockHand m).

Definition set_hashTable (h : gmap (File * PageId) FrameId) (m : BufMgr) : BufMgr :=
  mkBufMgr (numBufs m) (bufDescTable m) (bufPool m) h (clockHand m).

Definition set_clockHand (c : FrameId) (m : BufMgr) : BufMgr :=
  mkBufMgr (numBufs m) (bufDescTable m) (bufPool m) (hashTable m) c.

Definition update_desc (i : FrameId) (f : BufDesc → BufDesc) (m : BufMgr) : BufMgr :=
  set_table (<[N.to_nat i := f (desc_at m i)]> (bufDescTable m)) m.

Definition desc (i : FrameId) : M BufDesc := gets (λ m, desc_at m i).

Definition modify_desc (i : FrameId) (f : BufDesc → BufDesc) : M unit :=
  modify (update_desc i f).

Definition pool_at (m : BufMgr) (i : FrameId) : Page := bufPool m !!! N.to_nat i.

Definition store_page (i : FrameId) (pg : Page) : M unit :=
  modify (λ m, set_pool (<[N.to_nat i := pg]> (bufPool m)) m).

(** ** The page index *)

(** Modelled from the spec: [BufHashTbl::lookup] (not part of the sources).
    Section 6: fails with NotFound when the key is absent. *)
Definition hashTable_lookup (f : File) (p : PageId) : M FrameId :=
  λ w, match hashTable (mgr w) !! (f, p) with
       | Some i => Normal i w
       | None => Raised HashNotFoundException w
       end.

(** Modelled from the spec: [BufHashTbl::insert] (not part of the sources). *)
Definition hashTable_insert (f : File) (p : PageId) (i : FrameId) : M unit :=
  modify (λ m, set_hashTable (<[(f, p) := i]> (hashTable m)) m).

(** Modelled from the spec: [BufHashTbl::remove] (not part of the sources). *)
Definition hashTable_remove (f : File) (p : PageId) : M unit :=
  modify (λ m, set_hashTable (delete (f, p) (hashTable m)) m).

(** ** Calls on files *)

Section Manager.
Context `{FB : FileBehaviour}.

Definition log (c : FileCall) : M unit :=
  λ w, Normal tt (mkWorld (mgr w) (calls w ++ [c])).

Definition file_readPage (f : File) (p : PageId) : M Page :=
  λ w, Normal (readPage_result (calls w) f p)
              (mkWorld (mgr w) (calls w ++ [CallReadPage f p])).

Definition file_writePage (f : File) (pg : Page) : M unit :=
  log (CallWritePage f pg).

Definition file_allocatePage (f : File) : M Page :=
  λ w, Normal (allocatePage_result (calls w) f)
              (mkWorld (mgr w) (calls w ++ [CallAllocatePage f])).

Definition file_deletePage (f : File) (p : PageId) : M unit :=
  log (CallDeletePage f p).

(** ** BufMgr::BufMgr *)

Definition BufMgr_new (bufs : N) : BufMgr :=
  {| numBufs := bufs;
     bufDescTable :=
       map (λ i, with_valid false (with_frameNo (N.of_nat i) BufDesc_new))
           (seq 0 (N.to_nat bufs));
     bufPool := replicate (N.to_nat bufs) Page_empty;
     hashTable := ∅;
     clockHand := wrap32 (bufs + (2 ^ 32 - 1)) |}.

Definition World_new (bufs : N) : World := mkWorld (BufMgr_new bufs) [].

(** ** BufMgr::advanceClock

    The remainder by a [numBufs] of 0 is undefined in C++; [wf] has
    [numBufs] positive. *)

Definition advanceClock : M unit :=
  modify (λ m, set_clockHand (wrap32 (clockHand m + 1) mod numBufs m) m).

(** ** BufMgr::allocBuf *)

(** The [while] loop; [fuel] bounds the number of iterations and [pinned]
    is the local counter. *)
Fixpoint allocBuf_loop (fuel : nat) (pinned : N) : M unit :=
  match fuel with
  | O => λ _, OutOfFuel
  | S fuel' =>
    hand <- gets clockHand;;
    d <- desc hand;;
    if valid d then
      if refbit d then
        modify_desc hand (with_refbit false);;
        advanceClock;;
        allocBuf_loop fuel' pinned
      else if negb (pinCnt d =? 0) then
        let pinned' := wrap32 (pinned + 1) in
        n <- gets numBufs;;
        if pinned' =? n then throw BufferExceededException
        else advanceClock;; allocBuf_loop fuel' pinned'
      else
        when (dirty d)
          (pg <- gets (λ m, pool_at m hand);;
           file_writePage (file d) pg;;
           modify_desc hand (with_dirty false));;
        hashTable_remove (file d) (pageNo d)
    else ret tt
  end.

(** Every iteration that continues either clears a set refbit or counts a
    pinned frame, so twice the pool size, plus the last one, is enough
    (see [allocBuf_terminates]). *)
Definition allocBuf_fuel (m : BufMgr) : nat := S (2 * N.to_nat (numBufs m)).

Definition allocBuf : M FrameId :=
  advanceClock;;
  fuel <- gets allocBuf_fuel;;
  allocBuf_loop fuel 0;;
  hand <- gets clockHand;;
  modify_desc hand BufDesc_Clear;;
  ret hand.

(** ** BufMgr::readPage

    [page] is the value the caller's [Page*&] holds on entry; the result is
    the value it holds on return.  The [try] block ends the function with
    [return;], the [catch] block falls through, with [frameId] set, to the
    assignment after it. *)
Definition readPage (f : File) (pageNo : PageId) (page : PagePtr) : M PagePtr :=
  e <- try_catch
         (frameId <- hashTable_lookup f pageNo;;
          modify_desc frameId (with_refbit true);;
          modify_desc frameId (λ d, with_pinCnt (pinCnt d + 1) d);;
          ret FunctionReturns)
         HashNotFoundException
         (frameId <- allocBuf;;
          new_page <- file_readPage f pageNo;;
          store_page frameId new_page;;
          hashTable_insert f pageNo frameId;;
          modify_desc frameId (BufDesc_Set f pageNo);;
          ret (FallsThrough frameId));;
  match e with
  | FunctionReturns => ret page
  | FallsThrough frameId => ret (PtrSlot frameId)
  end.

(** ** BufMgr::unPinPage *)

Definition unPinPage (f : File) (pageNo : PageId) (dirty : bool) : M unit :=
  try_catch
    (framdId <- hashTable_lookup f pageNo;;
     d <- desc framdId;;
     if pinCnt d =? 0 then throw PageNotPinnedException
     else
       modify_desc framdId (λ d, with_pinCnt (pinCnt d - 1) d);;
       when dirty (modify_desc framdId (with_dirty true)))
    HashNotFoundException
    (ret tt).

(** ** BufMgr::flushFile *)

Definition flushFile_body (f : File) (i : FrameId) : M unit :=
  d <- desc i;;
  if file d =? f then
    when (negb (pinCnt d =? 0)) (throw PagePinnedException);;
    when (valid d) (throw BadBufferException);;
    when (dirty d)
      (pg <- gets (λ m, pool_at m i);;
       file_writePage (file d) pg;;
       modify_desc i (with_dirty false));;
    hashTable_remove f (pageNo d);;
    modify_desc i BufDesc_Clear
  else ret tt.

(** [for (FrameId i = first; i < first + count; i++) body(i)] *)
Fixpoint for_frames (count : nat) (i : FrameId) (body : FrameId → M unit) : M unit :=
  match count with
  | O => ret tt
  | S count' => body i;; for_frames count' (i + 1) body
  end.

Definition flushFile (f : File) : M unit :=
  n <- gets numBufs;;
  for_frames (N.to_nat n) 0 (flushFile_body f).

(** ** BufMgr::allocPage

    [pageNo] is the value the caller's [PageId&] holds on entry; the
    results are the values [pageNo] and [page] hold on return. *)
Definition allocPage (f : File) (pageNo : PageId) (page : PagePtr)
  : M (PageId * PagePtr) :=
  new_page <- file_allocatePage f;;
  frameId <- allocBuf;;
  store_page frameId new_page;;
  hashTable_insert f pageNo frameId;;
  modify_desc frameId (BufDesc_Set f pageNo);;
  (* pageNo = new_page.page_number(); page = &bufPool[frameId]; *)
  ret (page_number new_page, PtrSlot frameId).

(** ** BufMgr::disposePage *)

Definition disposePage (f : File) (PageNo : PageId) : M unit :=
  try_catch
    (frameNo <- hashTable_lookup f PageNo;;
     hashTable_remove f PageNo;;
     modify_desc frameNo BufDesc_Clear)
    HashNotFoundException
    (ret tt);;
  file_deletePage f PageNo.

End Manager.

(** ** Sequences of calls *)

(** The public member functions with their arguments. *)
Inductive Op :=
| OpReadPage (f : File) (pageNo : PageId) (page : PagePtr)
| OpUnPinPage (f : File) (pageNo : PageId) (dirty : bool)
| OpFlushFile (f : File)
| OpAllocPage (f : File) (pageNo : PageId) (page : PagePtr)
| OpDisposePage (f : File) (pageNo : PageId).

(** The world an outcome leaves behind: an exception leaves the manager as
    it was when thrown. *)
Definition final {A} (r : Outcome A) : option World :=
  match r with
  | Normal _ w => Some w
  | Raised _ w => Some w
  | OutOfFuel => None
  end.

Definition raised {A} (r : Outcome A) : option Exn :=
  match r with
  | Raised e _ => Some e
  | _ => None
  end.

Definition run {A} (m : M A) (w : World) : World := default w (final (m w)).

Section Calls.
Context `{FB : FileBehaviour}.

Definition perform (o : Op) : M unit :=
  match o with
  | OpReadPage f p page => readPage f p page;; ret tt
  | OpUnPinPage f p dirty => unPinPage f p dirty
  | OpFlushFile f => flushFile f
  | OpAllocPage f p page => allocPage f p page;; ret tt
  | OpDisposePage f p => disposePage f p
  end.

(** The states a manager can be in: constructed with a pool of at least
    one frame, then any calls, failed ones included. *)
Inductive reachable : World → Prop :=
| reachable_new (bufs : N) :
    0 < bufs < 2 ^ 32 → reachable (World_new bufs)
| reachable_step (w : World) (o : Op) (w' : World) :
    reachable w → final (perform o w) = Some w' → reachable w'.

(** Calls of [readPage] and [unPinPage] on one page. *)
Inductive PinOp :=
| Fetch (page : PagePtr)
| Unpin (dirty : bool).

Definition pin_op (f : File) (p : PageId) (o : PinOp) : M unit :=
  match o with
  | Fetch page => readPage f p page;; ret tt
  | Unpin dirty => unPinPage f p dirty
  end.

Fixpoint pin_ops (f : File) (p : PageId) (l : list PinOp) : M unit :=
  match l with
  | [] => ret tt
  | o :: l' => pin_op f p o;; pin_ops f p l'
  end.

End Calls.

Definition is_fetch (o : PinOp) : bool :=
  match o with Fetch _ => true | Unpin _ => false end.

Definition fetches (l : list PinOp) : N := N.of_nat (length (filter is_fetch l)).
Definition unpins (l : list PinOp) : N :=
  N.of_nat (length (filter (λ o, negb (is_fetch o)) l)).

(** ** The invariant of the manager *)

Record wf (m : BufMgr) : Prop := {
  wf_size : 0 < numBufs m < 2 ^ 32;
  wf_table : length (bufDescTable m) = N.to_nat (numBufs m);
  wf_pool : length (bufPool m) = N.to_nat (numBufs m);
  wf_hand : clockHand m < numBufs m;
  (** an index entry points at a valid frame holding that page *)
  wf_index : ∀ f p i, hashTable m !! (f, p) = Some i →
    i < numBufs m ∧ valid (desc_at m i) = true ∧
    file (desc_at m i) = f ∧ pageNo (desc_at m i) = p;
  (** an invalid frame is unpinned, clean, unreferenced and names no file *)
  wf_invalid : ∀ i, valid (desc_at m i) = false →
    pinCnt (desc_at m i) = 0 ∧ dirty (desc_at m i) = false ∧
    refbit (desc_at m i) = false ∧ file (desc_at m i) = NULL
}.

(** The error kinds section 7 of the spec lets through. *)
Definition spec_surfaced (e : Exn) : bool :=
  match e with
  | BufferExceededException | PageNotPinnedException | PagePinnedException => true
  | _ => false
  end.

(** The exceptions the member functions throw and do not catch. *)
Definition code_surfaced (e : Exn) : bool :=
  match e with
  | HashNotFoundException => false
  | _ => true
  end.

(** ** A file collaborator to run examples with

    Pages read come back empty under the number asked for; the pages of a
    file are numbered 1, 2, 3, ... in the order they are allocated. *)
Fixpoint allocated (f : File) (h : list FileCall) : N :=
  match h with
  | [] => 0
  | CallAllocatePage g :: h' =>
      if g =? f then 1 + allocated f h' else allocated f h'
  | _ :: h' => allocated f h'
  end.

Definition sample_files : FileBehaviour :=
  {| readPage_result := λ _ _ p, mkPage p [];
     allocatePage_result := λ h f, mkPage (1 + allocated f h) [] |}.

(** ** Specification vocabulary *)

(** What a sweep of the clock leaves alone in a frame. *)
Definition same_page (d d' : BufDesc) : Prop :=
  file d' = file d ∧ pageNo d' = pageNo d ∧ frameNo d' = frameNo d ∧
  pinCnt d' = pinCnt d ∧ valid d' = valid d.

Definition kept (m m' : BufMgr) : Prop :=
  numBufs m' = numBufs m ∧ bufPool m' = bufPool m ∧
  length (bufDescTable m') = length (bufDescTable m) ∧
  ∀ i, same_page (desc_at m i) (desc_at m' i).

(** The loop of [allocBuf] stops on a frame that is unpinned and that no
    index entry points at. *)
Definition victim_ready (m : BufMgr) : Prop :=
  pinCnt (desc_at m (clockHand m)) = 0 ∧
  ∀ f p, hashTable m !! (f, p) ≠ Some (clockHand m).

Definition sweep_post (w : World) (r : Outcome unit) : Prop :=
  match r with
  | Normal _ w' => wf (mgr w') ∧ kept (mgr w) (mgr w') ∧ victim_ready (mgr w')
  | Raised e w' =>
      e = BufferExceededException ∧ wf (mgr w') ∧ kept (mgr w) (mgr w')
  | OutOfFuel => True
  end.

Definition allocBuf_post (w : World) (r : Outcome FrameId) : Prop :=
  match r with
  | Normal i w' =>
      wf (mgr w') ∧ i < numBufs (mgr w) ∧
      pinCnt (desc_at (mgr w) i) = 0 ∧
      valid (desc_at (mgr w') i) = false ∧
      numBufs (mgr w') = numBufs (mgr w) ∧
      bufPool (mgr w') = bufPool (mgr w) ∧
      (∀ j, j ≠ i → same_page (desc_at (mgr w) j) (desc_at (mgr w') j)) ∧
      (∀ f p, hashTable (mgr w') !! (f, p) ≠ Some i)
  | Raised e w' =>
      e = BufferExceededException ∧ wf (mgr w') ∧ kept (mgr w) (mgr w')
  | OutOfFuel => True
  end.

(** What [readPage] and [allocPage] do with the frame [allocBuf] gave them:
    store the page, insert the index entry, set the descriptor. *)
Definition install (f : File) (p : PageId) (i : FrameId) (pg : Page)
    (m : BufMgr) : BufMgr :=
  update_desc i (BufDesc_Set f p)
    (set_hashTable (<[(f, p) := i]> (hashTable m))
       (set_pool (<[N.to_nat i := pg]> (bufPool m)) m)).

(** The number of descriptors with the refbit set. *)
Fixpoint referenced (t : list BufDesc) : nat :=
  match t with
  | [] => 0
  | d :: t' => (if refbit d then 1 else 0) + referenced t'
  end.

(** The exceptions a computation can end with all satisfy [E]. *)
Definition throws_only {A} (E : Exn → Prop) (m : M A) : Prop :=
  ∀ w e w', m w = Raised e w' → E e.

(** Which exception which member function lets out. *)
Definition may_throw (o : Op) (e : Exn) : bool :=
  match o, e with
  | OpReadPage _ _ _, BufferExceededException => true
  | OpAllocPage _ _ _, BufferExceededException => true
  | OpUnPinPage _ _ _, PageNotPinnedException => true
  | OpFlushFile _, PagePinnedException => true
  | OpFlushFile _, BadBufferException => true
  | _, _ => false
  end.

(** Frame [i] holds in [m'] the page, and the bytes, it holds in [m]. *)
Definition still_holds (m m' : BufMgr) (i : FrameId) : Prop :=
  valid (desc_at m' i) = true ∧
  file (desc_at m' i) = file (desc_at m i) ∧
  pageNo (desc_at m' i) = pageNo (desc_at m i) ∧
  pool_at m' i = pool_at m i.

Definition returned {A} (r : Outcome A) : option A :=
  match r with
  | Normal a _ => Some a
  | _ => None
  end.

(** A frame the clock can take without a grace pass: invalid, or valid,
    unreferenced and unpinned. *)
Definition eligible (d : BufDesc) : bool :=
  negb (valid d) || (negb (refbit d) && (pinCnt d =? 0)).

(** ** Example runs, on [sample_files] *)

Definition step (o : Op) (w : World) : World :=
  run (@perform sample_files o) w.

(** A pool of two frames; page 1 then page 2 of file 1 are read, the
    second through a variable that now holds the address of slot 1. *)
Definition two_pages : World :=
  step (OpReadPage 1 2 (PtrOther 0))
    (step (OpReadPage 1 1 (PtrOther 0)) (World_new 2)).

(** A pool of two frames after [allocPage] on file 1, called with a page
    number variable that held 7. *)
Definition after_allocPage : World :=
  step (OpAllocPage 1 7 (PtrOther 0)) (World_new 2).

(** A pool of one frame; page 1 of file 1 is read, then unpinned dirty. *)
Definition one_dirty_page : World :=
  step (OpUnPinPage 1 1 true)
    (step (OpReadPage 1 1 (PtrOther 0)) (World_new 1)).

(** A pool of two frames; pages 1 and 2 of file 1 are read, page 2 is
    unpinned, page 3 is read (into the frame of page 2) and unpinned: frame
    0 is pinned and unreferenced, frame 1 is unpinned and referenced. *)
Definition one_unpinned_of_two : World :=
  step (OpUnPinPage 1 3 false)
    (step (OpReadPage 1 3 (PtrOther 0))
       (step (OpUnPinPage 1 2 false)
          (step (OpReadPage 1 2 (PtrOther 0))
             (step (OpReadPage 1 1 (PtrOther 0)) (World_new 2))))).

(** A pool of two frames; page 1 of file 1 is read and unpinned, page 2 is
    read and stays pinned. *)
Definition unpinned_then_pinned : World :=
  step (OpReadPage 1 2 (PtrOther 0))
    (step (OpUnPinPage 1 1 false)
       (step (OpReadPage 1 1 (PtrOther 0)) (World_new 2))).

(** A pool of one frame; page 1 of file 1 is read, then unpinned clean. *)
Definition one_clean_page : World :=
  step (OpUnPinPage 1 1 false)
    (step (OpReadPage 1 1 (PtrOther 0)) (World_new 1)).

(** A pool of one frame whose only page stays pinned. *)
Definition one_pinned_page : World :=
  step (OpReadPage 1 1 (PtrOther 0)) (World_new 1).

(** * The rest of the file *)

(** ** BufMgr::~BufMgr *)

Definition destroy_body (i : FrameId) : M unit :=
  d <- desc i;;
  when (dirty d && valid d)
    (pg <- gets (λ m, pool_at m i);;
     file_writePage (file d) pg;;
     modify_desc i (with_dirty false)).

(** The loop that flushes out the dirty pages. *)
Definition destroy_flush : M unit :=
  n <- gets numBufs;;
  for_frames (N.to_nat n) 0 destroy_body.

(** [delete[] bufPool; delete[] bufDescTable;]: the two arrays are gone;
    the hash table is not deleted. *)
Definition BufMgr_destroy : M unit :=
  destroy_flush;;
  modify (set_pool []);;
  modify (set_table []).

(** ** BufMgr::printSelf *)

(** What goes to [std::cout]: per frame, its number and what
    [BufDesc::Print] prints of the descriptor (Print is declared in
    buffer.h, which is not part of the sources; the line is kept as the
    descriptor itself), then the total. *)
Inductive Output :=
| OutFrame (i : N) (d : BufDesc)
| OutTotal (validFrames : Z).

(** The [for] loop; [validFrames] is the [int] counter, which does not
    overflow while the pool has fewer than 2^31 frames. *)
Fixpoint printSelf_loop (count : nat) (i : N) (validFrames : Z) (m : BufMgr)
  : list Output * Z :=
  match count with
  | O => ([], validFrames)
  | S count' =>
      let tmpbuf := desc_at m i in
      let validFrames' :=
        if valid tmpbuf then (validFrames + 1)%Z else validFrames in
      let '(out, total) := printSelf_loop count' (i + 1) validFrames' m in
      (OutFrame i tmpbuf :: out, total)
  end.

Definition printSelf (m : BufMgr) : list Output :=
  let '(out, total) := printSelf_loop (N.to_nat (numBufs m)) 0 0%Z m in
  out ++ [OutTotal total].

(** The total [printSelf] prints. *)
Definition printed_total (m : BufMgr) : Z :=
  snd (printSelf_loop (N.to_nat (numBufs m)) 0 0%Z m).

(** ** More specification vocabulary *)

(** What a sweep of the clock that takes no frame does to the manager:
    nothing but clearing refbits. *)
Definition swept (m m' : BufMgr) : Prop :=
  numBufs m' = numBufs m ∧ bufPool m' = bufPool m ∧
  hashTable m' = hashTable m ∧
  length (bufDescTable m') = length (bufDescTable m) ∧
  ∀ i, with_refbit false (desc_at m' i) = with_refbit false (desc_at m i) ∧
       (refbit (desc_at m' i) = true → refbit (desc_at m i) = true).

(** The write [allocBuf] makes when it takes a frame with descriptor [d]
    and content [pg]. *)
Definition write_back (d : BufDesc) (pg : Page) : list FileCall :=
  if valid d && dirty d then [CallWritePage (file d) pg] else [].

(** The index once the page of descriptor [d] is evicted. *)
Definition evict_entry (d : BufDesc) (h : gmap (File * PageId) FrameId)
  : gmap (File * PageId) FrameId :=
  if valid d then delete (file d, pageNo d) h else h.

(** The writes the destructor makes: one per frame that is dirty and valid,
    in frame order. *)
Definition dirty_writes (t : list BufDesc) (p : list Page) : list FileCall :=
  flat_map (λ x, if dirty x.1 && valid x.1
                 then [CallWritePage (file x.1) x.2] else [])
           (zip t p).

(** [advanceClock] called [k] times. *)
Fixpoint advances (k : nat) : M unit :=
  match k with
  | O => ret tt
  | S k' => advanceClock;; advances k'
  end.

(** The manager once [allocBuf]'s loop has taken the frame under the hand:
    a dirty page is marked clean (it has been written) and the page's index
    entry is removed. *)
Definition took (m : BufMgr) : BufMgr :=
  let hand := clockHand m in
  let d := desc_at m hand in
  if valid d then
    set_hashTable (delete (file d, pageNo d) (hashTable m))
      (if dirty d then update_desc hand (with_dirty false) m else m)
  else m.

(** The loop of [allocBuf], exactly: a sweep that only clears refbits, then
    either the throw or the taking of the frame under the hand. *)
Definition loop_post (w : World) (r : Outcome unit) : Prop :=
  match r with
  | Normal _ w' =>
      ∃ m1, swept (mgr w) m1 ∧
        (valid (desc_at m1 (clockHand m1)) = true →
         refbit (desc_at m1 (clockHand m1)) = false ∧
         pinCnt (desc_at m1 (clockHand m1)) = 0) ∧
        mgr w' = took m1 ∧
        calls w' = calls w ++
          write_back (desc_at m1 (clockHand m1)) (pool_at m1 (clockHand m1))
  | Raised e w' => swept (mgr w) (mgr w') ∧ calls w' = calls w
  | OutOfFuel => True
  end.

(** A descriptor after the destructor's loop has passed it. *)
Definition flushed (d : BufDesc) : BufDesc :=
  if dirty d && valid d then with_dirty false d else d.

(** The frame numbers [first, first + count). *)
Definition frame_range (first count : nat) : list FrameId :=
  N.of_nat <$> seq first count.

(** The frames of the range that are valid. *)
Definition valid_frames (m : BufMgr) (first count : nat) : list FrameId :=
  filter (λ i, valid (desc_at m i) = true) (frame_range first count).

(** ** More example runs, on [sample_files] *)


(** [two_pages], both pinned, after a [readPage] of page 3 has thrown. *)
Definition two_pages_refused : World :=
  step (OpReadPage 1 3 (PtrOther 0)) two_pages.

(** * Properties *)

Section Facts.
Context `{FB : FileBehaviour}.

(** ** Array access *)

Lemma desc_at_update_eq m i g :
  (N.to_nat i < length (bufDescTable m))%nat →
  desc_at (update_desc i g m) i = g (desc_at m i).
Proof.
  intros Hi. unfold desc_at, update_desc. simpl.
  by rewrite list_lookup_total_insert_eq.
Qed.

Lemma desc_at_update_ne m i j g :
  i ≠ j → desc_at (update_desc i g m) j = desc_at m j.
Proof.
  intros Hne. unfold desc_at, update_desc. simpl.
  apply list_lookup_total_insert_ne. lia.
Qed.

Lemma desc_at_update m i j g :
  desc_at (update_desc i g m) j = desc_at m j ∨
  (i = j ∧ (N.to_nat i < length (bufDescTable m))%nat ∧
   desc_at (update_desc i g m) j = g (desc_at m j)).
Proof.
  destruct (decide (i = j)) as [->|Hne].
  - destruct (decide (N.to_nat j < length (bufDescTable m))%nat).
    + right. split; [done|]. split; [done|]. by apply desc_at_update_eq.
    + left. unfold desc_at, update_desc. simpl.
      rewrite list_insert_ge; [done|lia].
  - left. by apply desc_at_update_ne.
Qed.

Lemma desc_at_set_hashTable m h i : desc_at (set_hashTable h m) i = desc_at m i.
Proof. done. Qed.

Lemma desc_at_set_clockHand m c i : desc_at (set_clockHand c m) i = desc_at m i.
Proof. done. Qed.

Lemma desc_at_set_pool m p i : desc_at (set_pool p m) i = desc_at m i.
Proof. done. Qed.

Lemma length_update_desc m i g :
  length (bufDescTable (update_desc i g m)) = length (bufDescTable m).
Proof. unfold update_desc. simpl. apply length_insert. Qed.

Lemma wf_in_range m i : wf m → i < numBufs m →
  (N.to_nat i < length (bufDescTable m))%nat.
Proof. intros Hwf Hi. rewrite (wf_table _ Hwf). lia. Qed.

(** ** The invariant under the elementary updates *)

(** An update of one descriptor that keeps the page it names, and leaves an
    invalid frame unpinned, clean and unreferenced. *)
Lemma wf_update_desc m i g :
  wf m →
  (valid (g (desc_at m i)) = valid (desc_at m i) ∧
   file (g (desc_at m i)) = file (desc_at m i) ∧
   pageNo (g (desc_at m i)) = pageNo (desc_at m i)) →
  (valid (desc_at m i) = false →
   pinCnt (g (desc_at m i)) = 0 ∧ dirty (g (desc_at m i)) = false ∧
   refbit (g (desc_at m i)) = false) →
  wf (update_desc i g m).
Proof.
  intros Hwf (Hv & Hf & Hp) Hinv. split.
  - apply Hwf.
  - rewrite length_update_desc. apply Hwf.
  - apply Hwf.
  - apply Hwf.
  - intros f p j Hl. simpl in Hl.
    destruct (wf_index _ Hwf f p j Hl) as (Hj & Hvj & Hfj & Hpj).
    split; [exact Hj|].
    destruct (desc_at_update m i j g) as [->|(-> & _ & ->)]; [done|].
    rewrite Hv, Hf, Hp. done.
  - intros j Hj.
    destruct (desc_at_update m i j g) as [Heq|(-> & _ & Heq)];
      rewrite Heq in *.
    + by apply Hwf.
    + rewrite Hv in Hj. destruct (Hinv Hj) as (? & ? & ?).
      destruct (wf_invalid _ Hwf j Hj) as (_ & _ & _ & ?).
      rewrite Hf. done.
Qed.

Lemma wf_advance m :
  wf m → wf (set_clockHand (wrap32 (clockHand m + 1) mod numBufs m) m).
Proof.
  intros Hwf. split; try apply Hwf. simpl.
  apply N.mod_lt. pose proof (wf_size _ Hwf). lia.
Qed.

Lemma wf_advance' m c : wf m → c < numBufs m → wf (set_clockHand c m).
Proof. intros Hwf Hc. split; try apply Hwf. exact Hc. Qed.

Lemma wf_remove m k :
  wf m → wf (set_hashTable (delete k (hashTable m)) m).
Proof.
  intros Hwf. split; try apply Hwf.
  intros f p i Hl. simpl in Hl.
  apply lookup_delete_Some in Hl as [_ Hl].
  by apply (wf_index _ Hwf).
Qed.

(** Resetting a frame no index entry points at. *)
Lemma wf_clear m i :
  wf m → (∀ f p, hashTable m !! (f, p) ≠ Some i) →
  wf (update_desc i BufDesc_Clear m).
Proof.
  intros Hwf Hfree. split.
  - apply Hwf.
  - rewrite length_update_desc. apply Hwf.
  - apply Hwf.
  - apply Hwf.
  - intros f p j Hl. simpl in Hl.
    destruct (wf_index _ Hwf f p j Hl) as (Hj & Hvj & Hfj & Hpj).
    split; [exact Hj|].
    rewrite desc_at_update_ne; [done|].
    intros ->. by apply (Hfree f p).
  - intros j Hj.
    destruct (desc_at_update m i j BufDesc_Clear) as [Heq|(-> & _ & Heq)];
      rewrite Heq in *.
    + by apply Hwf.
    + done.
Qed.

(** Installing page (f, p) in a frame that only (f, p) may point at. *)
Lemma wf_install m i f p pg :
  wf m → i < numBufs m →
  (∀ f' p', hashTable m !! (f', p') = Some i → (f', p') = (f, p)) →
  wf (update_desc i (BufDesc_Set f p)
        (set_hashTable (<[(f, p) := i]> (hashTable m))
           (set_pool (<[N.to_nat i := pg]> (bufPool m)) m))).
Proof.
  intros Hwf Hi Hfree.
  pose proof (wf_in_range _ _ Hwf Hi) as Hr.
  split.
  - apply Hwf.
  - rewrite length_update_desc. apply Hwf.
  - simpl. rewrite length_insert. apply Hwf.
  - apply Hwf.
  - intros f' p' j Hl. simpl in Hl.
    destruct (decide ((f, p) = (f', p'))) as [Heq|Hne].
    + rewrite Heq, lookup_insert_eq in Hl. injection Hl as <-.
      injection Heq as <- <-.
      split; [exact Hi|]. rewrite desc_at_update_eq; [done|exact Hr].
    + rewrite lookup_insert_ne in Hl by done.
      destruct (wf_index _ Hwf f' p' j Hl) as (Hj & Hvj & Hfj & Hpj).
      split; [exact Hj|].
      rewrite desc_at_update_ne; [done|].
      intros ->. apply Hne. symmetry. by apply Hfree.
  - intros j Hj.
    destruct (desc_at_update
                (set_hashTable (<[(f, p) := i]> (hashTable m))
                   (set_pool (<[N.to_nat i := pg]> (bufPool m)) m))
                i j (BufDesc_Set f p)) as [Heq|(-> & _ & Heq)];
      rewrite Heq in *.
    + by apply Hwf.
    + done.
Qed.

(** ** What a sweep keeps *)

Lemma same_page_refl d : same_page d d.
Proof. by repeat split. Qed.

Lemma kept_refl m : kept m m.
Proof. repeat split. Qed.

Lemma kept_trans m1 m2 m3 : kept m1 m2 → kept m2 m3 → kept m1 m3.
Proof.
  intros (Hn1 & Hp1 & Hl1 & Hd1) (Hn2 & Hp2 & Hl2 & Hd2).
  split; [congruence|]. split; [congruence|]. split; [congruence|].
  intros i. destruct (Hd1 i) as (?&?&?&?&?), (Hd2 i) as (?&?&?&?&?).
  repeat split; congruence.
Qed.

Lemma kept_update_desc m i g :
  same_page (desc_at m i) (g (desc_at m i)) → kept m (update_desc i g m).
Proof.
  intros Hs. split; [done|]. split; [done|].
  split; [apply length_update_desc|].
  intros j. destruct (desc_at_update m i j g) as [->|(-> & _ & ->)].
  - apply same_page_refl.
  - exact Hs.
Qed.

Lemma kept_advance m c : kept m (set_clockHand c m).
Proof. repeat split. Qed.

Lemma kept_set_hashTable m h : kept m (set_hashTable h m).
Proof. repeat split. Qed.

(** ** allocBuf *)

Lemma sweep_post_trans w1 w2 r :
  kept (mgr w1) (mgr w2) → sweep_post w2 r → sweep_post w1 r.
Proof.
  intros Hk. destruct r as [a w'|e w'|]; simpl; [| |done].
  - intros (? & ? & ?). eauto using kept_trans.
  - intros (? & ? & ?). eauto using kept_trans.
Qed.

Lemma allocBuf_loop_spec fuel : ∀ pinned w,
  wf (mgr w) → sweep_post w (allocBuf_loop fuel pinned w).
Proof.
  induction fuel as [|fuel IH]; intros pinned w Hwf; [done|].
  simpl. unfold bind at 1 2. simpl.
  set (hand := clockHand (mgr w)).
  set (d := desc_at (mgr w) hand).
  destruct (valid d) eqn:Hv.
  - destruct (refbit d) eqn:Hr.
    + (* referenced: second chance *)
      unfold bind at 1 2. simpl.
      eapply sweep_post_trans; [|apply IH].
      * simpl. eapply kept_trans; [|apply kept_advance].
        apply kept_update_desc. repeat split.
      * simpl.
        apply (wf_advance (update_desc hand (with_refbit false) (mgr w))).
        apply wf_update_desc; [done|done|].
        fold d. congruence.
    + destruct (pinCnt d =? 0) eqn:Hp; simpl.
      * (* the victim *)
        apply N.eqb_eq in Hp.
        unfold bind at 1. unfold when.
        destruct (dirty d) eqn:Hd; simpl.
        -- split; [|split; [|split]].
           ++ apply (wf_remove (update_desc hand (with_dirty false) (mgr w))).
              apply wf_update_desc; [done|done|].
              fold d. congruence.
           ++ eapply kept_trans; [|apply kept_set_hashTable].
              apply kept_update_desc. repeat split.
           ++ simpl. fold hand. rewrite desc_at_set_hashTable.
              destruct (desc_at_update (mgr w) hand hand (with_dirty false))
                as [->|(_ & _ & ->)]; done.
           ++ simpl. fold hand. intros f p Hl.
              apply lookup_delete_Some in Hl as [Hne Hl].
              destruct (wf_index _ Hwf f p hand Hl) as (_ & _ & Hf & Hpn).
              apply Hne. fold d in Hf, Hpn. congruence.
        -- split; [|split; [|split]].
           ++ by apply wf_remove.
           ++ apply kept_set_hashTable.
           ++ done.
           ++ simpl. fold hand. intros f p Hl.
              apply lookup_delete_Some in Hl as [Hne Hl].
              destruct (wf_index _ Hwf f p hand Hl) as (_ & _ & Hf & Hpn).
              apply Hne. fold d in Hf, Hpn. congruence.
      * (* pinned *)
        unfold bind at 1. simpl.
        destruct (wrap32 (pinned + 1) =? numBufs (mgr w)) eqn:Hn; simpl.
        -- split; [done|]. split; [done|]. apply kept_refl.
        -- unfold bind at 1. simpl.
           eapply sweep_post_trans; [|apply IH].
           ++ apply kept_advance.
           ++ simpl. by apply wf_advance.
  - (* invalid: free *)
    simpl. split; [done|]. split; [apply kept_refl|]. split.
    + by destruct (wf_invalid _ Hwf hand Hv).
    + intros f p Hl.
      destruct (wf_index _ Hwf f p _ Hl) as (_ & Hv' & _).
      fold hand in Hv'. fold d in Hv'. congruence.
Qed.

Lemma allocBuf_eq w :
  allocBuf w =
  match allocBuf_loop (allocBuf_fuel (mgr w)) 0
          (mkWorld (set_clockHand
                      (wrap32 (clockHand (mgr w) + 1) mod numBufs (mgr w))
                      (mgr w)) (calls w)) with
  | Normal _ w2 =>
      Normal (clockHand (mgr w2))
        (mkWorld (update_desc (clockHand (mgr w2)) BufDesc_Clear (mgr w2))
                 (calls w2))
  | Raised e w2 => Raised e w2
  | OutOfFuel => OutOfFuel
  end.
Proof. reflexivity. Qed.

Lemma allocBuf_spec w : wf (mgr w) → allocBuf_post w (allocBuf w).
Proof.
  intros Hwf. rewrite allocBuf_eq.
  set (w1 := mkWorld _ _).
  assert (wf (mgr w1)) as Hwf1 by (by apply wf_advance).
  assert (kept (mgr w) (mgr w1)) as Hk1 by apply kept_advance.
  pose proof (allocBuf_loop_spec (allocBuf_fuel (mgr w)) 0 w1 Hwf1) as Hloop.
  destruct (allocBuf_loop (allocBuf_fuel (mgr w)) 0 w1) as [[] w2|e w2|];
    [| |done].
  - destruct Hloop as (Hwf2 & Hk2 & Hpin & Hfree).
    pose proof (kept_trans _ _ _ Hk1 Hk2) as (Hn & Hp & Hl & Hd).
    unfold allocBuf_post. cbn [mgr].
    set (hand := clockHand (mgr w2)) in *.
    assert (hand < numBufs (mgr w2)) as Hh by apply Hwf2.
    split; [by apply wf_clear|].
    split; [lia|].
    split; [destruct (Hd hand) as (_ & _ & _ & <- & _); done|].
    split.
    { rewrite desc_at_update_eq; [done|]. by apply wf_in_range. }
    split; [done|]. split; [done|]. split.
    + intros j Hj. rewrite desc_at_update_ne by done. apply Hd.
    + exact Hfree.
  - destruct Hloop as (-> & Hwf2 & Hk2).
    simpl. eauto using kept_trans.
Qed.

(** ** The member functions, unfolded *)

Lemma readPage_hit f p page w i :
  hashTable (mgr w) !! (f, p) = Some i →
  readPage f p page w =
  Normal page
    (mkWorld (update_desc i (λ d, with_pinCnt (pinCnt d + 1) d)
                (update_desc i (with_refbit true) (mgr w)))
             (calls w)).
Proof.
  intros Hl. unfold readPage, try_catch, bind, hashTable_lookup.
  by rewrite Hl.
Qed.

Lemma readPage_miss f p page w :
  hashTable (mgr w) !! (f, p) = None →
  readPage f p page w =
  match allocBuf w with
  | Normal i w1 =>
      Normal (PtrSlot i)
        (mkWorld (install f p i (readPage_result (calls w1) f p) (mgr w1))
                 (calls w1 ++ [CallReadPage f p]))
  | Raised e w1 => Raised e w1
  | OutOfFuel => OutOfFuel
  end.
Proof.
  intros Hl. unfold readPage, try_catch, hashTable_lookup.
  unfold bind at 1 2. rewrite Hl. simpl.
  unfold bind at 1. by destruct (allocBuf w).
Qed.

Lemma unPinPage_eq f p b w :
  unPinPage f p b w =
  match hashTable (mgr w) !! (f, p) with
  | None => Normal tt w
  | Some i =>
      if pinCnt (desc_at (mgr w) i) =? 0
      then Raised PageNotPinnedException w
      else
        let m1 := update_desc i (λ d, with_pinCnt (pinCnt d - 1) d) (mgr w) in
        Normal tt (mkWorld (if b then update_desc i (with_dirty true) m1 else m1)
                           (calls w))
  end.
Proof.
  unfold unPinPage, try_catch, bind, hashTable_lookup, desc, gets.
  destruct (hashTable (mgr w) !! (f, p)) as [i|]; simpl; [|done].
  destruct (pinCnt (desc_at (mgr w) i) =? 0); simpl; [done|].
  by destruct b.
Qed.

Lemma allocPage_eq f pn page w :
  allocPage f pn page w =
  let np := allocatePage_result (calls w) f in
  match allocBuf (mkWorld (mgr w) (calls w ++ [CallAllocatePage f])) with
  | Normal i w1 =>
      Normal (page_number np, PtrSlot i)
        (mkWorld (install f pn i np (mgr w1)) (calls w1))
  | Raised e w1 => Raised e w1
  | OutOfFuel => OutOfFuel
  end.
Proof.
  unfold allocPage. unfold bind at 1. simpl. unfold bind at 1.
  by destruct (allocBuf _).
Qed.

Lemma disposePage_eq f p w :
  disposePage f p w =
  Normal tt
    (mkWorld
       match hashTable (mgr w) !! (f, p) with
       | Some i =>
           update_desc i BufDesc_Clear
             (set_hashTable (delete (f, p) (hashTable (mgr w))) (mgr w))
       | None => mgr w
       end
       (calls w ++ [CallDeletePage f p])).
Proof.
  unfold disposePage, try_catch, bind, hashTable_lookup.
  by destruct (hashTable (mgr w) !! (f, p)).
Qed.

Lemma flushFile_body_eq f i w :
  flushFile_body f i w =
  let d := desc_at (mgr w) i in
  if file d =? f then
    if negb (pinCnt d =? 0) then Raised PagePinnedException w
    else if valid d then Raised BadBufferException w
    else
      let w1 :=
        if dirty d
        then mkWorld (update_desc i (with_dirty false) (mgr w))
                     (calls w ++ [CallWritePage (file d) (pool_at (mgr w) i)])
        else w in
      Normal tt
        (mkWorld (update_desc i BufDesc_Clear
                    (set_hashTable (delete (f, pageNo d) (hashTable (mgr w1)))
                       (mgr w1)))
                 (calls w1))
  else Normal tt w.
Proof.
  unfold flushFile_body, bind, desc, gets. simpl.
  destruct (file (desc_at (mgr w) i) =? f); [|done].
  destruct (pinCnt (desc_at (mgr w) i) =? 0); simpl; [|done].
  destruct (valid (desc_at (mgr w) i)); simpl; [done|].
  by destruct (dirty (desc_at (mgr w) i)).
Qed.

(** ** The invariant holds in every reachable state *)

Lemma wf_new bufs : 0 < bufs < 2 ^ 32 → wf (BufMgr_new bufs).
Proof.
  intros Hb. split; simpl.
  - done.
  - by rewrite length_map, length_seq.
  - by rewrite length_replicate.
  - unfold wrap32.
    replace (bufs + (2 ^ 32 - 1)) with ((bufs - 1) + 1 * 2 ^ 32) by lia.
    rewrite N.Div0.mod_add. rewrite N.mod_small; lia.
  - intros f p i Hl. by rewrite lookup_empty in Hl.
  - intros i _. unfold desc_at. simpl.
    rewrite list_lookup_total_alt, list_lookup_fmap.
    by destruct (seq 0 (N.to_nat bufs) !! N.to_nat i).
Qed.

Lemma wf_pin m i g :
  wf m → valid (desc_at m i) = true →
  (∀ d, valid (g d) = valid d ∧ file (g d) = file d ∧ pageNo (g d) = pageNo d) →
  wf (update_desc i g m).
Proof.
  intros Hwf Hv Hg. apply wf_update_desc; [done|apply Hg|congruence].
Qed.

Lemma wf_install_fresh m i f p pg :
  wf m → i < numBufs m → (∀ f' p', hashTable m !! (f', p') ≠ Some i) →
  wf (install f p i pg m).
Proof.
  intros Hwf Hi Hfree. apply wf_install; [done|done|].
  intros f' p' Hl. by destruct (Hfree f' p').
Qed.

Lemma readPage_wf f p page w :
  wf (mgr w) → ∀ w', final (readPage f p page w) = Some w' → wf (mgr w').
Proof.
  intros Hwf w'.
  destruct (hashTable (mgr w) !! (f, p)) as [i|] eqn:Hl.
  - rewrite (readPage_hit _ _ _ _ _ Hl). simpl. intros [= <-]. simpl.
    destruct (wf_index _ Hwf f p i Hl) as (Hi & Hv & _).
    apply wf_pin; [apply wf_pin; [done|done|done]| |done].
    rewrite desc_at_update_eq; [done|by apply wf_in_range].
  - rewrite (readPage_miss _ _ _ _ Hl).
    pose proof (allocBuf_spec w Hwf) as Hspec.
    destruct (allocBuf w) as [i w1|e w1|]; simpl; [| |done].
    + destruct Hspec as (Hwf1 & Hi & _ & _ & Hn & _ & _ & Hfree).
      intros [= <-]. simpl. apply wf_install_fresh; [done|lia|done].
    + destruct Hspec as (_ & Hwf1 & _). by intros [= <-].
Qed.

Lemma allocPage_wf f pn page w :
  wf (mgr w) → ∀ w', final (allocPage f pn page w) = Some w' → wf (mgr w').
Proof.
  intros Hwf w'. rewrite allocPage_eq. simpl.
  set (w0 := mkWorld _ _).
  pose proof (allocBuf_spec w0 Hwf) as Hspec.
  destruct (allocBuf w0) as [i w1|e w1|]; simpl; [| |done].
  - destruct Hspec as (Hwf1 & Hi & _ & _ & Hn & _ & _ & Hfree).
    intros [= <-]. simpl. apply wf_install_fresh; [done|simpl in *;lia|done].
  - destruct Hspec as (_ & Hwf1 & _). by intros [= <-].
Qed.

Lemma unPinPage_wf f p b w :
  wf (mgr w) → ∀ w', final (unPinPage f p b w) = Some w' → wf (mgr w').
Proof.
  intros Hwf w'. rewrite unPinPage_eq.
  destruct (hashTable (mgr w) !! (f, p)) as [i|] eqn:Hl;
    [|by intros [= <-]].
  destruct (pinCnt (desc_at (mgr w) i) =? 0); [by intros [= <-]|].
  simpl. intros [= <-]. simpl.
  destruct (wf_index _ Hwf f p i Hl) as (Hi & Hv & _).
  assert (wf (update_desc i (λ d, with_pinCnt (pinCnt d - 1) d) (mgr w)))
    as Hwf1 by (by apply wf_pin).
  destruct b; [|done].
  apply wf_pin; [done| |done].
  rewrite desc_at_update_eq; [done|by apply wf_in_range].
Qed.

Lemma disposePage_wf f p w :
  wf (mgr w) → ∀ w', final (disposePage f p w) = Some w' → wf (mgr w').
Proof.
  intros Hwf w'. rewrite disposePage_eq. simpl. intros [= <-]. simpl.
  destruct (hashTable (mgr w) !! (f, p)) as [i|] eqn:Hl; [|done].
  apply wf_clear; [by apply wf_remove|].
  intros f' p' Hl'. simpl in Hl'.
  apply lookup_delete_Some in Hl' as [Hne Hl'].
  destruct (wf_index _ Hwf f p i Hl) as (_ & _ & Hf & Hp).
  destruct (wf_index _ Hwf f' p' i Hl') as (_ & _ & Hf' & Hp').
  apply Hne. congruence.
Qed.

Lemma flushFile_body_wf f i w :
  wf (mgr w) → ∀ w', final (flushFile_body f i w) = Some w' → wf (mgr w').
Proof.
  intros Hwf w'. rewrite flushFile_body_eq. simpl.
  destruct (file (desc_at (mgr w) i) =? f); [|by intros [= <-]].
  destruct (pinCnt (desc_at (mgr w) i) =? 0); simpl; [|by intros [= <-]].
  destruct (valid (desc_at (mgr w) i)) eqn:Hv; simpl; [by intros [= <-]|].
  destruct (wf_invalid _ Hwf i Hv) as (_ & -> & _).
  intros [= <-]. simpl.
  apply wf_clear; [by apply wf_remove|].
  intros f' p' Hl'. simpl in Hl'.
  apply lookup_delete_Some in Hl' as [_ Hl'].
  destruct (wf_index _ Hwf f' p' i Hl') as (_ & Hv' & _). congruence.
Qed.

Lemma for_frames_wf body :
  (∀ i w, wf (mgr w) → ∀ w', final (body i w) = Some w' → wf (mgr w')) →
  ∀ count i w, wf (mgr w) →
  ∀ w', final (for_frames count i body w) = Some w' → wf (mgr w').
Proof.
  intros Hbody count. induction count as [|count IH]; intros i w Hwf w'.
  - simpl. by intros [= <-].
  - simpl. unfold bind at 1.
    pose proof (Hbody i w Hwf) as Hb.
    destruct (body i w) as [[] w1|e w1|]; simpl in *; [| |done].
    + apply IH. by apply Hb.
    + intros [= <-]. by apply Hb.
Qed.

Lemma flushFile_wf f w :
  wf (mgr w) → ∀ w', final (flushFile f w) = Some w' → wf (mgr w').
Proof.
  intros Hwf w'. unfold flushFile. unfold bind at 1. simpl.
  apply for_frames_wf; [|done]. intros i w0. apply flushFile_body_wf.
Qed.

Lemma final_discard {A} (m : M A) w :
  final ((m;; ret tt) w) = final (m w).
Proof. unfold bind. by destruct (m w). Qed.

Lemma perform_wf o w :
  wf (mgr w) → ∀ w', final (perform o w) = Some w' → wf (mgr w').
Proof.
  intros Hwf w'. destruct o as [f p page|f p b|f|f p page|f p]; simpl.
  - rewrite final_discard. by apply readPage_wf.
  - by apply unPinPage_wf.
  - by apply flushFile_wf.
  - rewrite final_discard. by apply allocPage_wf.
  - by apply disposePage_wf.
Qed.

Lemma reachable_wf w : reachable w → wf (mgr w).
Proof.
  induction 1 as [bufs Hb|w o w' _ IH Hstep].
  - by apply wf_new.
  - by apply (perform_wf o w).
Qed.

(** ** allocBuf returns or throws: the fuel is enough *)

Lemma referenced_clear t : ∀ i d,
  t !! i = Some d → refbit d = true →
  S (referenced (<[i := with_refbit false d]> t)) = referenced t.
Proof.
  induction t as [|d0 t IH]; intros [|i] d Hl Hr; simpl in *; try done.
  - injection Hl as ->. by rewrite Hr.
  - rewrite <- (IH i d Hl Hr). lia.
Qed.

Lemma referenced_le t : (referenced t ≤ length t)%nat.
Proof. induction t as [|d t IH]; simpl; [lia|]. destruct (refbit d); lia. Qed.

Lemma allocBuf_loop_total fuel : ∀ pinned w,
  wf (mgr w) → pinned < numBufs (mgr w) →
  (referenced (bufDescTable (mgr w)) +
   N.to_nat (numBufs (mgr w) - 1 - pinned) < fuel)%nat →
  allocBuf_loop fuel pinned w ≠ OutOfFuel.
Proof.
  induction fuel as [|fuel IH]; intros pinned w Hwf Hpin Hfuel; [lia|].
  simpl. unfold bind at 1 2. simpl.
  set (hand := clockHand (mgr w)).
  set (d := desc_at (mgr w) hand).
  destruct (valid d) eqn:Hv; [|done].
  destruct (refbit d) eqn:Hr.
  - unfold bind at 1 2. simpl.
    assert (bufDescTable (mgr w) !! N.to_nat hand = Some d) as Hl.
    { apply list_lookup_lookup_total_lt, wf_in_range; [done|apply Hwf]. }
    pose proof (referenced_clear _ _ _ Hl Hr) as Hdec.
    apply IH; simpl.
    + apply (wf_advance (update_desc hand (with_refbit false) (mgr w))).
      apply wf_update_desc; [done|done|]. fold d. congruence.
    + done.
    + fold d. lia.
  - destruct (pinCnt d =? 0) eqn:Hp; simpl.
    + unfold bind at 1. unfold when. by destruct (dirty d).
    + unfold bind at 1. simpl.
      pose proof (wf_size _ Hwf) as Hsz.
      assert (wrap32 (pinned + 1) = pinned + 1) as ->.
      { unfold wrap32. apply N.mod_small. lia. }
      destruct (pinned + 1 =? numBufs (mgr w)) eqn:Hn; [done|].
      apply N.eqb_neq in Hn.
      unfold bind at 1. simpl.
      apply IH; simpl.
      * by apply wf_advance.
      * lia.
      * lia.
Qed.

Lemma allocBuf_terminates w : wf (mgr w) → allocBuf w ≠ OutOfFuel.
Proof.
  intros Hwf. rewrite allocBuf_eq.
  set (w1 := mkWorld _ _).
  assert (allocBuf_loop (allocBuf_fuel (mgr w)) 0 w1 ≠ OutOfFuel) as Hloop.
  { pose proof (wf_size _ Hwf) as Hsz.
    apply allocBuf_loop_total; simpl.
    - by apply wf_advance.
    - lia.
    - pose proof (referenced_le (bufDescTable (mgr w))) as Hle.
      rewrite (wf_table _ Hwf) in Hle. unfold allocBuf_fuel. lia. }
  by destruct (allocBuf_loop (allocBuf_fuel (mgr w)) 0 w1).
Qed.

Lemma for_frames_no_fuel body :
  (∀ i w, body i w ≠ OutOfFuel) →
  ∀ count i w, for_frames count i body w ≠ OutOfFuel.
Proof.
  intros Hbody count. induction count as [|count IH]; intros i w; [done|].
  simpl. unfold bind at 1.
  pose proof (Hbody i w) as Hb.
  destruct (body i w) as [[] w1|e w1|]; [apply IH|done|done].
Qed.

(** Every member function returns or throws. *)
Lemma perform_terminates o w : wf (mgr w) → perform o w ≠ OutOfFuel.
Proof.
  intros Hwf. destruct o as [f p page|f p b|f|f p page|f p]; simpl.
  - unfold bind at 1.
    destruct (hashTable (mgr w) !! (f, p)) as [i|] eqn:Hl.
    + by rewrite (readPage_hit _ _ _ _ _ Hl).
    + rewrite (readPage_miss _ _ _ _ Hl).
      pose proof (allocBuf_terminates w Hwf).
      by destruct (allocBuf w).
  - rewrite unPinPage_eq.
    destruct (hashTable (mgr w) !! (f, p)) as [i|]; [|done].
    by destruct (pinCnt (desc_at (mgr w) i) =? 0).
  - unfold flushFile. unfold bind at 1. simpl.
    apply for_frames_no_fuel. intros i w0. rewrite flushFile_body_eq. simpl.
    destruct (file (desc_at (mgr w0) i) =? f); [|done].
    destruct (pinCnt (desc_at (mgr w0) i) =? 0); simpl; [|done].
    by destruct (valid (desc_at (mgr w0) i)).
  - unfold bind at 1. rewrite allocPage_eq. simpl.
    set (w0 := mkWorld _ _).
    pose proof (allocBuf_terminates w0 Hwf).
    by destruct (allocBuf w0).
  - by rewrite disposePage_eq.
Qed.

(** ** Which exceptions leave which function *)

Lemma throws_only_weaken {A} (E E' : Exn → Prop) (m : M A) :
  (∀ e, E e → E' e) → throws_only E m → throws_only E' m.
Proof. intros HE Hm w e w' Hr. eauto. Qed.

Lemma throws_only_bind {A B} E (m : M A) (k : A → M B) :
  throws_only E m → (∀ a, throws_only E (k a)) → throws_only E (bind m k).
Proof.
  intros Hm Hk w e w'. unfold bind.
  destruct (m w) as [a w1|e1 w1|] eqn:Hmw; [|intros [= <- <-]|done].
  - apply Hk.
  - by apply (Hm w e1 w1).
Qed.

Lemma throws_only_catch {A} E (m h : M A) e0 :
  throws_only (λ e, e = e0 ∨ E e) m → throws_only E h →
  throws_only E (try_catch m e0 h).
Proof.
  intros Hm Hh w e w'. unfold try_catch.
  destruct (m w) as [a w1|e1 w1|] eqn:Hmw; [done| |done].
  destruct (decide (e1 = e0)) as [->|Hne].
  - apply Hh.
  - intros [= <- <-]. destruct (Hm w e1 w1 Hmw); [done|done].
Qed.

Lemma throws_only_throw {A} (E : Exn → Prop) e :
  E e → throws_only E (@throw A e).
Proof. intros He w e' w' [= <- <-]. done. Qed.

Lemma throws_only_ret {A} E (a : A) : throws_only E (ret a).
Proof. by intros w e w'. Qed.

Lemma throws_only_gets {A} E (g : BufMgr → A) : throws_only E (gets g).
Proof. by intros w e w'. Qed.

Lemma throws_only_modify E u : throws_only E (modify u).
Proof. by intros w e w'. Qed.

Lemma throws_only_when E b m : throws_only E m → throws_only E (when b m).
Proof. destruct b; [done|]. intros _. apply throws_only_ret. Qed.

Lemma throws_only_lookup f p :
  throws_only (eq HashNotFoundException) (hashTable_lookup f p).
Proof.
  intros w e w'. unfold hashTable_lookup.
  destruct (hashTable (mgr w) !! (f, p)); [done|]. by intros [= <- <-].
Qed.

Lemma throws_only_allocBuf_loop fuel : ∀ pinned,
  throws_only (eq BufferExceededException) (allocBuf_loop fuel pinned).
Proof.
  induction fuel as [|fuel IH]; intros pinned; [by intros w e w'|].
  simpl.
  apply throws_only_bind; [apply throws_only_gets|]. intros hand.
  apply throws_only_bind; [apply throws_only_gets|]. intros d.
  destruct (valid d); [|apply throws_only_ret].
  destruct (refbit d).
  - apply throws_only_bind; [apply throws_only_modify|]. intros _.
    apply throws_only_bind; [apply throws_only_modify|]. intros _. apply IH.
  - destruct (negb (pinCnt d =? 0)).
    + apply throws_only_bind; [apply throws_only_gets|]. intros n.
      destruct (wrap32 (pinned + 1) =? n); [by apply throws_only_throw|].
      apply throws_only_bind; [apply throws_only_modify|]. intros _. apply IH.
    + apply throws_only_bind; [|intros _; apply throws_only_modify].
      apply throws_only_when.
      apply throws_only_bind; [apply throws_only_gets|]. intros pg.
      apply throws_only_bind; [by intros w e w'|]. intros _.
      apply throws_only_modify.
Qed.

Lemma throws_only_allocBuf :
  throws_only (eq BufferExceededException) allocBuf.
Proof.
  unfold allocBuf.
  apply throws_only_bind; [apply throws_only_modify|]. intros _.
  apply throws_only_bind; [apply throws_only_gets|]. intros fuel.
  apply throws_only_bind; [apply throws_only_allocBuf_loop|]. intros _.
  apply throws_only_bind; [apply throws_only_gets|]. intros hand.
  apply throws_only_bind; [apply throws_only_modify|]. intros _.
  apply throws_only_ret.
Qed.

Lemma throws_only_readPage f p page :
  throws_only (eq BufferExceededException) (readPage f p page).
Proof.
  unfold readPage. apply throws_only_bind;
    [|intros [|i]; apply throws_only_ret].
  apply throws_only_catch.
  - apply throws_only_bind.
    + eapply throws_only_weaken; [|apply throws_only_lookup].
      intros e <-. by left.
    + intros i.
      apply throws_only_bind; [apply throws_only_modify|]. intros _.
      apply throws_only_bind; [apply throws_only_modify|]. intros _.
      apply throws_only_ret.
  - apply throws_only_bind; [apply throws_only_allocBuf|]. intros i.
    apply throws_only_bind; [by intros w e w'|]. intros pg.
    apply throws_only_bind; [apply throws_only_modify|]. intros _.
    apply throws_only_bind; [apply throws_only_modify|]. intros _.
    apply throws_only_bind; [apply throws_only_modify|]. intros _.
    apply throws_only_ret.
Qed.

Lemma throws_only_unPinPage f p b :
  throws_only (eq PageNotPinnedException) (unPinPage f p b).
Proof.
  unfold unPinPage. apply throws_only_catch; [|apply throws_only_ret].
  apply throws_only_bind.
  - eapply throws_only_weaken; [|apply throws_only_lookup].
    intros e <-. by left.
  - intros i.
    apply throws_only_bind; [apply throws_only_gets|]. intros d.
    destruct (pinCnt d =? 0).
    + apply throws_only_throw. by right.
    + apply throws_only_bind; [apply throws_only_modify|]. intros _.
      apply throws_only_when, throws_only_modify.
Qed.

Lemma throws_only_for_frames E body :
  (∀ i, throws_only E (body i)) →
  ∀ count i, throws_only E (for_frames count i body).
Proof.
  intros Hbody count. induction count as [|count IH]; intros i; simpl.
  - apply throws_only_ret.
  - apply throws_only_bind; [apply Hbody|]. intros _. apply IH.
Qed.

Lemma throws_only_flushFile f :
  throws_only (λ e, e = PagePinnedException ∨ e = BadBufferException)
    (flushFile f).
Proof.
  unfold flushFile.
  apply throws_only_bind; [apply throws_only_gets|]. intros n.
  apply throws_only_for_frames. intros i. unfold flushFile_body.
  apply throws_only_bind; [apply throws_only_gets|]. intros d.
  destruct (file d =? f); [|apply throws_only_ret].
  apply throws_only_bind.
  { apply throws_only_when, throws_only_throw. by left. }
  intros _. apply throws_only_bind.
  { apply throws_only_when, throws_only_throw. by right. }
  intros _. apply throws_only_bind.
  { apply throws_only_when.
    apply throws_only_bind; [apply throws_only_gets|]. intros pg.
    apply throws_only_bind; [by intros w e w'|]. intros _.
    apply throws_only_modify. }
  intros _. apply throws_only_bind; [apply throws_only_modify|]. intros _.
  apply throws_only_modify.
Qed.

Lemma throws_only_allocPage f pn page :
  throws_only (eq BufferExceededException) (allocPage f pn page).
Proof.
  unfold allocPage.
  apply throws_only_bind; [by intros w e w'|]. intros np.
  apply throws_only_bind; [apply throws_only_allocBuf|]. intros i.
  apply throws_only_bind; [apply throws_only_modify|]. intros _.
  apply throws_only_bind; [apply throws_only_modify|]. intros _.
  apply throws_only_bind; [apply throws_only_modify|]. intros _.
  apply throws_only_ret.
Qed.

Lemma throws_only_disposePage f p :
  throws_only (λ _, False) (disposePage f p).
Proof.
  unfold disposePage. apply throws_only_bind; [|by intros _ w e w'].
  apply throws_only_catch; [|apply throws_only_ret].
  apply throws_only_bind.
  - eapply throws_only_weaken; [|apply throws_only_lookup].
    intros e <-. by left.
  - intros i.
    apply throws_only_bind; [apply throws_only_modify|]. intros _.
    apply throws_only_modify.
Qed.

(** ** A pinned frame keeps its page *)

Lemma still_holds_update m0 m i j g :
  still_holds m0 m i →
  (∀ d, valid (g d) = valid d ∧ file (g d) = file d ∧ pageNo (g d) = pageNo d) →
  still_holds m0 (update_desc j g m) i.
Proof.
  intros (Hv & Hf & Hp & Hpool) Hg.
  destruct (Hg (desc_at m i)) as (Hgv & Hgf & Hgp).
  unfold still_holds.
  destruct (desc_at_update m j i g) as [->|(_ & _ & ->)].
  - done.
  - rewrite Hgv, Hgf, Hgp. done.
Qed.

Lemma still_holds_refl m i : valid (desc_at m i) = true → still_holds m m i.
Proof. by repeat split. Qed.

Lemma still_holds_kept m m' i :
  valid (desc_at m i) = true → kept m m' → still_holds m m' i.
Proof.
  intros Hv (_ & Hp & _ & Hd).
  destruct (Hd i) as (Hf & Hpn & _ & _ & Hv').
  split; [congruence|]. split; [done|]. split; [done|].
  unfold pool_at. by rewrite Hp.
Qed.

Lemma still_holds_install m i j f p pg :
  i ≠ j → valid (desc_at m i) = true → still_holds m (install f p j pg m) i.
Proof.
  intros Hne Hv. unfold still_holds, install.
  rewrite desc_at_update_ne by done.
  rewrite desc_at_set_hashTable, desc_at_set_pool.
  split; [done|]. split; [done|]. split; [done|].
  unfold pool_at. simpl. apply list_lookup_total_insert_ne. lia.
Qed.

Lemma still_holds_trans m1 m2 m3 i :
  still_holds m1 m2 i → still_holds m2 m3 i → still_holds m1 m3 i.
Proof.
  intros (? & ? & ? & ?) (? & ? & ? & ?). repeat split; congruence.
Qed.

Lemma allocBuf_still_holds w i :
  wf (mgr w) → pinCnt (desc_at (mgr w) i) ≠ 0 →
  match allocBuf w with
  | Normal j w1 => j ≠ i ∧ still_holds (mgr w) (mgr w1) i
  | Raised _ w1 => still_holds (mgr w) (mgr w1) i
  | OutOfFuel => True
  end.
Proof.
  intros Hwf Hpin.
  assert (valid (desc_at (mgr w) i) = true) as Hv.
  { destruct (valid (desc_at (mgr w) i)) eqn:Hv; [done|].
    by destruct (wf_invalid _ Hwf i Hv). }
  pose proof (allocBuf_spec w Hwf) as Hspec.
  destruct (allocBuf w) as [j w1|e w1|]; simpl in Hspec; [| |done].
  - destruct Hspec as (_ & _ & Hj & _ & _ & Hp & Hd & _).
    assert (j ≠ i) as Hne by congruence.
    split; [done|].
    destruct (Hd i) as (Hf & Hpn & _ & _ & Hv'); [done|].
    split; [congruence|]. split; [done|]. split; [done|].
    unfold pool_at. by rewrite Hp.
  - destruct Hspec as (_ & _ & Hk). by apply still_holds_kept.
Qed.

(** ** When allocBuf is sure to find a frame *)

Lemma allocBuf_loop_finds (j : FrameId) fuel : ∀ k pinned w,
  wf (mgr w) → eligible (desc_at (mgr w) j) = true →
  (clockHand (mgr w) + k) mod numBufs (mgr w) = j →
  pinned + k < numBufs (mgr w) → (N.to_nat k < fuel)%nat →
  ∃ w', allocBuf_loop fuel pinned w = Normal tt w'.
Proof.
  induction fuel as [|fuel IH]; intros k pinned w Hwf Hj Hk Hpin Hfuel; [lia|].
  pose proof (wf_size _ Hwf) as Hsz. pose proof (wf_hand _ Hwf) as Hh.
  simpl. unfold bind at 1 2. simpl.
  set (hand := clockHand (mgr w)) in *.
  set (d := desc_at (mgr w) hand).
  assert (0 < k → (wrap32 (hand + 1) mod numBufs (mgr w) + (k - 1))
                  mod numBufs (mgr w) = j) as Hnext.
  { intros Hpos. unfold wrap32. rewrite (N.mod_small (hand + 1)) by lia.
    rewrite N.Div0.add_mod_idemp_l. rewrite <- Hk. f_equal. lia. }
  assert (eligible d = false → 0 < k ∧ hand ≠ j) as Hgo.
  { intros Hd. assert (hand ≠ j) as Hne by (intros <-; unfold d in Hd; congruence).
    split; [|done]. destruct (decide (k = 0)) as [->|]; [|lia].
    rewrite N.add_0_r, N.mod_small in Hk; done. }
  destruct (valid d) eqn:Hv; [|by eexists].
  destruct (refbit d) eqn:Hr.
  - (* referenced: not the eligible frame *)
    destruct Hgo as [Hpos Hne]; [unfold eligible; by rewrite Hv, Hr|].
    unfold bind at 1 2. simpl.
    apply (IH (k - 1)).
    + apply (wf_advance (update_desc hand (with_refbit false) (mgr w))).
      apply wf_update_desc; [done|done|]. fold d. congruence.
    + cbn [mgr]. rewrite desc_at_set_clockHand.
      by rewrite desc_at_update_ne by done.
    + exact (Hnext Hpos).
    + assert (pinned + (k - 1) < numBufs (mgr w)) as Hlt by lia. exact Hlt.
    + lia.
  - destruct (pinCnt d =? 0) eqn:Hp; simpl.
    + unfold bind at 1. unfold when. destruct (dirty d); by eexists.
    + destruct Hgo as [Hpos Hne]; [unfold eligible; by rewrite Hv, Hr, Hp|].
      unfold bind at 1. simpl.
      assert (wrap32 (pinned + 1) = pinned + 1) as ->.
      { unfold wrap32. apply N.mod_small. lia. }
      destruct (pinned + 1 =? numBufs (mgr w)) eqn:Hn;
        [apply N.eqb_eq in Hn; lia|].
      unfold bind at 1. simpl.
      apply (IH (k - 1)).
      * by apply wf_advance.
      * done.
      * exact (Hnext Hpos).
      * assert (pinned + 1 + (k - 1) < numBufs (mgr w)) as Hlt by lia.
        exact Hlt.
      * lia.
Qed.

(** If some frame is invalid, or valid, unreferenced and unpinned,
    [allocBuf] returns a frame. *)
Lemma allocBuf_finds_eligible w (j : FrameId) :
  wf (mgr w) → j < numBufs (mgr w) → eligible (desc_at (mgr w) j) = true →
  ∃ i w', allocBuf w = Normal i w'.
Proof.
  intros Hwf Hj He. rewrite allocBuf_eq.
  pose proof (wf_size _ Hwf) as Hsz.
  set (n := numBufs (mgr w)) in *.
  set (h0 := wrap32 (clockHand (mgr w) + 1) mod n).
  assert (h0 < n) as Hh0 by (apply N.mod_lt; lia).
  destruct (allocBuf_loop_finds j (allocBuf_fuel (mgr w))
              ((j + n - h0) mod n) 0
              (mkWorld (set_clockHand h0 (mgr w)) (calls w)))
    as [w' Hw'].
  - by apply wf_advance.
  - done.
  - simpl. fold n. rewrite N.Div0.add_mod_idemp_r.
    replace (h0 + (j + n - h0)) with (j + 1 * n) by lia.
    rewrite N.Div0.mod_add. by apply N.mod_small.
  - simpl. fold n. pose proof (N.mod_lt (j + n - h0) n). lia.
  - unfold allocBuf_fuel. fold n.
    pose proof (N.mod_lt (j + n - h0) n). lia.
  - rewrite Hw'. by eexists _, _.
Qed.

(** ** What the code does where it departs from the spec *)

(** On an index hit [readPage] hands the caller's pointer back untouched,
    makes no call on the file, and pins and references the frame. *)
Lemma readPage_hit_outcome f p page w (i : FrameId) :
  wf (mgr w) → hashTable (mgr w) !! (f, p) = Some i →
  ∃ w', readPage f p page w = Normal page w' ∧
    calls w' = calls w ∧
    refbit (desc_at (mgr w') i) = true ∧
    pinCnt (desc_at (mgr w') i) = pinCnt (desc_at (mgr w) i) + 1.
Proof.
  intros Hwf Hl. rewrite (readPage_hit _ _ _ _ _ Hl).
  destruct (wf_index _ Hwf f p i Hl) as (Hi & _).
  pose proof (wf_in_range _ _ Hwf Hi) as Hr.
  eexists. split; [done|]. split; [done|]. cbn [mgr].
  rewrite desc_at_update_eq by (by rewrite length_update_desc).
  by rewrite desc_at_update_eq by done.
Qed.

(** [allocPage] returns the number of the page the file allocated, and puts
    the descriptor and the index entry under the number its [pageNo]
    argument held on entry. *)
Lemma allocPage_outcome f pn page w n ptr w' :
  wf (mgr w) → allocPage f pn page w = Normal (n, ptr) w' →
  n = page_number (allocatePage_result (calls w) f) ∧
  ∃ i : FrameId, ptr = PtrSlot i ∧
    hashTable (mgr w') !! (f, pn) = Some i ∧
    file (desc_at (mgr w') i) = f ∧ pageNo (desc_at (mgr w') i) = pn ∧
    pool_at (mgr w') i = allocatePage_result (calls w) f.
Proof.
  intros Hwf. rewrite allocPage_eq. cbv zeta.
  set (w0 := mkWorld _ _).
  pose proof (allocBuf_spec w0 Hwf) as Hspec.
  destruct (allocBuf w0) as [i w1|e w1|]; [|done|done].
  destruct Hspec as (Hwf1 & Hi & _ & _ & Hn & _).
  intros [= <- <- <-]. split; [done|]. exists i. split; [done|].
  assert (N.to_nat i < N.to_nat (numBufs (mgr w1)))%nat as Hr
    by (unfold w0 in *; simpl in *; lia).
  unfold install. cbn [mgr]. split; [apply lookup_insert_eq|].
  rewrite desc_at_update_eq by (simpl; rewrite (wf_table _ Hwf1); lia).
  split; [done|]. split; [done|].
  unfold pool_at. simpl. apply list_lookup_total_insert_eq.
  rewrite (wf_pool _ Hwf1). lia.
Qed.

(** [flushFile] on a file changes nothing and writes nothing: it returns
    when no frame names the file and throws at the first frame that does. *)
Lemma flushFile_body_inert f i w :
  wf (mgr w) → f ≠ NULL →
  ∀ w', final (flushFile_body f i w) = Some w' → w' = w.
Proof.
  intros Hwf Hf w'. rewrite flushFile_body_eq. cbv zeta.
  destruct (file (desc_at (mgr w) i) =? f) eqn:Hfile;
    [|by intros [= <-]].
  apply N.eqb_eq in Hfile.
  destruct (pinCnt (desc_at (mgr w) i) =? 0); simpl; [|by intros [= <-]].
  destruct (valid (desc_at (mgr w) i)) eqn:Hv; [by intros [= <-]|].
  destruct (wf_invalid _ Hwf i Hv) as (_ & _ & _ & Hnull). congruence.
Qed.

Lemma flushFile_inert f w :
  wf (mgr w) → f ≠ NULL → ∀ w', final (flushFile f w) = Some w' → w' = w.
Proof.
  intros Hwf Hf w'. unfold flushFile. unfold bind at 1. simpl.
  generalize (N.to_nat (numBufs (mgr w))) (0 : FrameId).
  intros count. induction count as [|count IH]; intros i.
  - simpl. by intros [= <-].
  - simpl. unfold bind at 1.
    pose proof (flushFile_body_inert f i w Hwf Hf) as Hb.
    destruct (flushFile_body f i w) as [[] w1|e w1|]; [| |done].
    + rewrite (Hb w1 eq_refl). apply IH.
    + simpl. intros [= <-]. by apply Hb.
Qed.

(** When a frame holds a page of the file, [flushFile] throws: at the first
    such frame, PagePinnedException if it is pinned and BadBufferException if
    it is not. *)
Lemma for_frames_flush_throws f w :
  wf (mgr w) → f ≠ NULL →
  ∀ count (k i : FrameId),
  k ≤ i < k + N.of_nat count → file (desc_at (mgr w) i) = f →
  ∃ e, for_frames count k (flushFile_body f) w = Raised e w ∧
    (e = PagePinnedException ∨ e = BadBufferException) ∧
    ((∀ j, file (desc_at (mgr w) j) = f → pinCnt (desc_at (mgr w) j) = 0) →
     e = BadBufferException).
Proof.
  intros Hwf Hf count.
  induction count as [|count IH]; intros k i Hi Hfile; [lia|].
  cbn [for_frames]. unfold bind at 1. rewrite flushFile_body_eq. cbv zeta.
  destruct (file (desc_at (mgr w) k) =? f) eqn:Hk.
  - apply N.eqb_eq in Hk.
    destruct (pinCnt (desc_at (mgr w) k) =? 0) eqn:Hp; simpl.
    + destruct (valid (desc_at (mgr w) k)) eqn:Hv.
      * exists BadBufferException. auto.
      * destruct (wf_invalid _ Hwf k Hv) as (_ & _ & _ & Hnull). congruence.
    + exists PagePinnedException. split; [done|]. split; [by left|].
      intros Hall. apply N.eqb_neq in Hp. by destruct Hp; apply Hall.
  - apply N.eqb_neq in Hk.
    assert (k ≠ i) as Hne by congruence.
    apply (IH (k + 1) i); [lia|done].
Qed.

Lemma flushFile_cached_throws f w (i : FrameId) :
  wf (mgr w) → f ≠ NULL →
  i < numBufs (mgr w) → file (desc_at (mgr w) i) = f →
  ∃ e, flushFile f w = Raised e w ∧
    (e = PagePinnedException ∨ e = BadBufferException) ∧
    ((∀ j, file (desc_at (mgr w) j) = f → pinCnt (desc_at (mgr w) j) = 0) →
     e = BadBufferException).
Proof.
  intros Hwf Hf Hi Hfile. unfold flushFile. unfold bind at 1. simpl.
  apply (for_frames_flush_throws f w Hwf Hf _ 0 i); [lia|done].
Qed.

(** ** Pinned frames are never victims *)

Lemma flushFile_body_unchanged f k w i :
  pinCnt (desc_at (mgr w) i) ≠ 0 →
  ∀ w', final (flushFile_body f k w) = Some w' →
  desc_at (mgr w') i = desc_at (mgr w) i ∧ bufPool (mgr w') = bufPool (mgr w).
Proof.
  intros Hpin w'. rewrite flushFile_body_eq. simpl.
  destruct (file (desc_at (mgr w) k) =? f); [|by intros [= <-]].
  destruct (pinCnt (desc_at (mgr w) k) =? 0) eqn:Hk; simpl;
    [|by intros [= <-]].
  apply N.eqb_eq in Hk.
  destruct (valid (desc_at (mgr w) k)); simpl; [by intros [= <-]|].
  assert (k ≠ i) as Hne by congruence.
  intros [= <-]. simpl.
  rewrite desc_at_update_ne by done. rewrite desc_at_set_hashTable.
  destruct (dirty (desc_at (mgr w) k)); simpl; [|done].
  by rewrite desc_at_update_ne by done.
Qed.

Lemma for_frames_flush_unchanged f i : ∀ count k w,
  pinCnt (desc_at (mgr w) i) ≠ 0 →
  ∀ w', final (for_frames count k (flushFile_body f) w) = Some w' →
  desc_at (mgr w') i = desc_at (mgr w) i ∧ bufPool (mgr w') = bufPool (mgr w).
Proof.
  induction count as [|count IH]; intros k w Hpin w'.
  - simpl. by intros [= <-].
  - simpl. unfold bind at 1.
    pose proof (flushFile_body_unchanged f k w i Hpin) as Hb.
    destruct (flushFile_body f k w) as [[] w1|e w1|]; simpl in *; [| |done].
    + destruct (Hb w1 eq_refl) as [Hd Hp]. intros Hrest.
      destruct (IH (k + 1) w1 ltac:(by rewrite Hd) w' Hrest) as [Hd' Hp'].
      split; congruence.
    + intros [= <-]. by apply Hb.
Qed.

Lemma perform_still_holds o w w' i :
  wf (mgr w) → final (perform o w) = Some w' →
  pinCnt (desc_at (mgr w) i) ≠ 0 →
  o ≠ OpDisposePage (file (desc_at (mgr w) i)) (pageNo (desc_at (mgr w) i)) →
  still_holds (mgr w) (mgr w') i.
Proof.
  intros Hwf Hfin Hpin Hnot.
  assert (valid (desc_at (mgr w) i) = true) as Hv.
  { destruct (valid (desc_at (mgr w) i)) eqn:Hv; [done|].
    by destruct (wf_invalid _ Hwf i Hv). }
  destruct o as [f p page|f p b|f|f p page|f p]; simpl in Hfin.
  - rewrite final_discard in Hfin.
    destruct (hashTable (mgr w) !! (f, p)) as [j|] eqn:Hl.
    + rewrite (readPage_hit _ _ _ _ _ Hl) in Hfin. injection Hfin as <-.
      simpl. apply still_holds_update; [|done].
      apply still_holds_update; [|done]. by apply still_holds_refl.
    + rewrite (readPage_miss _ _ _ _ Hl) in Hfin.
      pose proof (allocBuf_still_holds w i Hwf Hpin) as Hspec.
      destruct (allocBuf w) as [j w1|e w1|]; simpl in Hfin; [| |done].
      * destruct Hspec as [Hne Hh]. injection Hfin as <-. simpl.
        eapply still_holds_trans; [exact Hh|].
        apply still_holds_install; [done|apply Hh].
      * by injection Hfin as <-.
  - rewrite unPinPage_eq in Hfin.
    destruct (hashTable (mgr w) !! (f, p)) as [j|];
      [|injection Hfin as <-; by apply still_holds_refl].
    destruct (pinCnt (desc_at (mgr w) j) =? 0);
      [injection Hfin as <-; by apply still_holds_refl|].
    injection Hfin as <-. simpl.
    assert (still_holds (mgr w)
              (update_desc j (λ d, with_pinCnt (pinCnt d - 1) d) (mgr w)) i)
      as Hh.
    { apply still_holds_update; [by apply still_holds_refl|done]. }
    destruct b; [|done]. by apply still_holds_update.
  - unfold flushFile in Hfin. unfold bind at 1 in Hfin. simpl in Hfin.
    destruct (for_frames_flush_unchanged f i _ _ _ Hpin _ Hfin) as [Hd Hp].
    unfold still_holds, pool_at. rewrite Hd, Hp. done.
  - rewrite final_discard, allocPage_eq in Hfin. simpl in Hfin.
    set (w0 := mkWorld _ _) in Hfin.
    pose proof (allocBuf_still_holds w0 i Hwf Hpin) as Hspec.
    destruct (allocBuf w0) as [j w1|e w1|]; simpl in Hfin; [| |done].
    + destruct Hspec as [Hne Hh]. injection Hfin as <-. simpl.
      eapply still_holds_trans; [exact Hh|].
      apply still_holds_install; [done|apply Hh].
    + by injection Hfin as <-.
  - rewrite disposePage_eq in Hfin. injection Hfin as <-. simpl.
    destruct (hashTable (mgr w) !! (f, p)) as [j|] eqn:Hl;
      [|by apply still_holds_refl].
    destruct (wf_index _ Hwf f p j Hl) as (_ & _ & Hf & Hp).
    assert (j ≠ i) as Hne by (intros ->; apply Hnot; congruence).
    unfold still_holds. rewrite desc_at_update_ne by done. done.
Qed.

(** C7. In every state the manager can reach, a frame [allocBuf] returns has
    pin count 0 when it is selected (the sweep changes no pin count, so this
    is its pin count when [allocBuf] is entered, in the middle of
    [readPage] or [allocPage] as well); and whatever is called next, a
    frame whose pin count is not 0 still holds the same page of the same
    file, with the same bytes, unless the call is [disposePage] of that very
    page. *)
Theorem pinned_frame_never_victim (w : World) :
  reachable w →
  (∀ w0 i w', mgr w0 = mgr w → allocBuf w0 = Normal i w' →
     pinCnt (desc_at (mgr w) i) = 0) ∧
  (∀ o i w', final (perform o w) = Some w' →
     pinCnt (desc_at (mgr w) i) ≠ 0 →
     o ≠ OpDisposePage (file (desc_at (mgr w) i)) (pageNo (desc_at (mgr w) i)) →
     still_holds (mgr w) (mgr w') i).
Proof.
  intros Hreach. pose proof (reachable_wf w Hreach) as Hwf. split.
  - intros w0 i w' Hm Ha.
    assert (wf (mgr w0)) as Hwf0 by (by rewrite Hm).
    pose proof (allocBuf_spec w0 Hwf0) as Hspec. rewrite Ha in Hspec.
    destruct Hspec as (_ & _ & Hpin & _). by rewrite <- Hm.
  - intros o i w' Hfin Hpin Hnot. by apply (perform_still_holds o).
Qed.

(** ** Errors that reach the caller *)

(** What the member functions let out, with an index and files that throw
    nothing of their own: BufferExceededException (readPage, allocPage),
    PageNotPinnedException (unPinPage), PagePinnedException or
    BadBufferException (flushFile); HashNotFoundException never leaves
    them. *)
Lemma perform_throws (o : Op) (w w' : World) (e : Exn) :
  perform o w = Raised e w' →
  may_throw o e = true ∧ code_surfaced e = true.
Proof.
  intros Hr.
  assert (may_throw o e = true) as Hm; [|by destruct o, e].
  destruct o as [f p page|f p b|f|f p page|f p]; simpl in Hr.
  - assert (throws_only (eq BufferExceededException)
              (readPage f p page;; ret tt)) as Ht.
    { apply throws_only_bind; [apply throws_only_readPage|].
      intros _. apply throws_only_ret. }
    by destruct (Ht w e w' Hr).
  - by destruct (throws_only_unPinPage f p b w e w' Hr).
  - by destruct (throws_only_flushFile f w e w' Hr) as [-> | ->].
  - assert (throws_only (eq BufferExceededException)
              (allocPage f p page;; ret tt)) as Ht.
    { apply throws_only_bind; [apply throws_only_allocPage|].
      intros _. apply throws_only_ret. }
    by destruct (Ht w e w' Hr).
  - by destruct (throws_only_disposePage f p w e w' Hr).
Qed.

(** ** unPinPage *)

Lemma fetches_cons o l :
  fetches (o :: l) = (if is_fetch o then 1 else 0) + fetches l.
Proof. unfold fetches. rewrite filter_cons. destruct o; simpl; lia. Qed.

Lemma unpins_cons o l :
  unpins (o :: l) = (if is_fetch o then 0 else 1) + unpins l.
Proof. unfold unpins. rewrite filter_cons. destruct o; simpl; lia. Qed.

Lemma pin_ops_count (f : File) (p : PageId) (i : FrameId) : ∀ l w w',
  hashTable (mgr w) !! (f, p) = Some i →
  (N.to_nat i < length (bufDescTable (mgr w)))%nat →
  pin_ops f p l w = Normal tt w' →
  hashTable (mgr w') !! (f, p) = Some i ∧
  pinCnt (desc_at (mgr w') i) + unpins l =
  pinCnt (desc_at (mgr w) i) + fetches l.
Proof.
  induction l as [|o l IH]; intros w w' Hl Hi.
  - simpl. intros [= <-]. unfold unpins, fetches. simpl. split; [done|lia].
  - cbn [pin_ops]. unfold bind at 1. destruct o as [page|b].
    + change (pin_op f p (Fetch page)) with (readPage f p page;; ret tt).
      unfold bind at 1. rewrite (readPage_hit _ _ _ _ _ Hl).
      set (w1 := mkWorld _ _). intros Hrest.
      destruct (IH w1 w' Hl) as [Hl' Hc]; [|exact Hrest|].
      { unfold w1. cbn [mgr]. by rewrite !length_update_desc. }
      split; [done|]. rewrite fetches_cons, unpins_cons. simpl.
      unfold w1 in Hc. cbn [mgr] in Hc.
      rewrite desc_at_update_eq in Hc by (by rewrite length_update_desc).
      rewrite desc_at_update_eq in Hc by done.
      simpl in Hc. lia.
    + change (pin_op f p (Unpin b)) with (unPinPage f p b).
      rewrite unPinPage_eq, Hl.
      destruct (pinCnt (desc_at (mgr w) i) =? 0) eqn:Hp; [done|].
      apply N.eqb_neq in Hp. simpl.
      set (w1 := mkWorld _ _). intros Hrest.
      destruct (IH w1 w') as [Hl' Hc]; [| |exact Hrest|].
      { unfold w1. cbn [mgr]. by destruct b. }
      { unfold w1. cbn [mgr]. destruct b; by rewrite !length_update_desc. }
      split; [done|].
      assert (pinCnt (desc_at (mgr w1) i) = pinCnt (desc_at (mgr w) i) - 1)
        as Hdec.
      { unfold w1. cbn [mgr]. destruct b.
        - rewrite desc_at_update_eq by (by rewrite length_update_desc).
          by rewrite desc_at_update_eq by done.
        - by rewrite desc_at_update_eq by done. }
      rewrite Hdec in Hc. rewrite fetches_cons, unpins_cons. simpl. lia.
Qed.

(** C8. [unPinPage] on a page that is not in the index changes nothing and
    is no error; on a page in the index with pin count 0 it throws
    PageNotPinnedException; otherwise it takes one off the pin count and,
    when asked to mark the page dirty, sets the dirty bit, which it never
    clears: the pin count after the call is the one before less one, the
    dirty bit after the call is set if the caller asked for it or it was
    set before, and no other field, frame, index entry or file is
    touched.  After any calls of [readPage] and [unPinPage] on a cached page
    that all return, the pin count has grown by the number of fetches less
    the number of unpins; counted from the [readPage] that brings the page
    in, it is the number of fetches less the number of unpins. *)
Theorem unPinPage_pin_accounting (w : World) (f : File) (p : PageId) :
  reachable w →
  (hashTable (mgr w) !! (f, p) = None →
     ∀ b, unPinPage f p b w = Normal tt w) ∧
  (∀ i, hashTable (mgr w) !! (f, p) = Some i →
     let d := desc_at (mgr w) i in
     (pinCnt d = 0 → ∀ b, unPinPage f p b w = Raised PageNotPinnedException w) ∧
     (pinCnt d ≠ 0 → ∀ b, ∃ w',
        unPinPage f p b w = Normal tt w' ∧
        desc_at (mgr w') i = with_dirty (b || dirty d) (with_pinCnt (pinCnt d - 1) d) ∧
        pinCnt (desc_at (mgr w') i) = pinCnt d - 1 ∧
        dirty (desc_at (mgr w') i) = b || dirty d ∧
        desc_at (mgr w') i =
          mkBufDesc (file d) (pageNo d) (frameNo d) (pinCnt d - 1)
                    (b || dirty d) (valid d) (refbit d) ∧
        (∀ j, j ≠ i → desc_at (mgr w') j = desc_at (mgr w) j) ∧
        hashTable (mgr w') = hashTable (mgr w) ∧
        bufPool (mgr w') = bufPool (mgr w) ∧
        calls w' = calls w) ∧
     (∀ l w', pin_ops f p l w = Normal tt w' →
        hashTable (mgr w') !! (f, p) = Some i ∧
        Z.of_N (pinCnt (desc_at (mgr w') i)) =
        (Z.of_N (pinCnt d) + Z.of_N (fetches l) - Z.of_N (unpins l))%Z)) ∧
  (hashTable (mgr w) !! (f, p) = None →
     ∀ page l w', pin_ops f p (Fetch page :: l) w = Normal tt w' →
     ∃ i, hashTable (mgr w') !! (f, p) = Some i ∧
       Z.of_N (pinCnt (desc_at (mgr w') i)) =
       (Z.of_N (fetches (Fetch page :: l)) -
        Z.of_N (unpins (Fetch page :: l)))%Z).
Proof.
  intros Hreach. pose proof (reachable_wf w Hreach) as Hwf.
  split; [|split].
  - intros Hl b. by rewrite unPinPage_eq, Hl.
  - intros i Hl d.
    destruct (wf_index _ Hwf f p i Hl) as (Hi & _).
    pose proof (wf_in_range _ _ Hwf Hi) as Hr.
    split; [|split].
    + intros Hp b. rewrite unPinPage_eq, Hl. fold d. by rewrite Hp.
    + intros Hp b. rewrite unPinPage_eq, Hl. fold d.
      apply N.eqb_neq in Hp. rewrite Hp. simpl.
      eexists. split; [done|]. simpl. destruct b; simpl.
      * rewrite desc_at_update_eq by (by rewrite length_update_desc).
        rewrite desc_at_update_eq by done. fold d.
        do 4 (split; [done|]).
        split; [|done]. intros j Hj. by rewrite !desc_at_update_ne by done.
      * rewrite desc_at_update_eq by done. fold d.
        split; [by destruct d|]. do 2 (split; [done|]).
        split; [by destruct d|].
        split; [|done]. intros j Hj. by rewrite desc_at_update_ne by done.
    + intros l w' Hrun.
      destruct (pin_ops_count f p i l w w' Hl Hr Hrun) as [Hl' Hc].
      split; [done|]. fold d in Hc. lia.
  - intros Hl page l w'. cbn [pin_ops].
    change (pin_op f p (Fetch page)) with (readPage f p page;; ret tt).
    unfold bind at 1 2. rewrite (readPage_miss _ _ _ _ Hl).
    pose proof (allocBuf_spec w Hwf) as Hspec.
    destruct (allocBuf w) as [i w1|e w1|]; [|done|done].
    destruct Hspec as (Hwf1 & Hi & _ & _ & Hn & _).
    set (w2 := mkWorld _ _). intros Hrun.
    assert (N.to_nat i < length (bufDescTable (mgr w1)))%nat as Hr.
    { apply wf_in_range; [done|lia]. }
    destruct (pin_ops_count f p i l w2 w') as [Hl' Hc]; [| |exact Hrun|].
    { unfold w2, install. cbn [mgr]. simpl. apply lookup_insert_eq. }
    { unfold w2, install. cbn [mgr]. by rewrite length_update_desc. }
    exists i. split; [done|].
    assert (pinCnt (desc_at (mgr w2) i) = 1) as Hone.
    { unfold w2, install. cbn [mgr]. by rewrite desc_at_update_eq. }
    rewrite Hone in Hc. rewrite fetches_cons, unpins_cons. simpl. lia.
Qed.

(** C10. [unPinPage] with the dirty flag set, on a cached page whose pin
    count is 0, throws PageNotPinnedException and leaves the manager, and
    the files, exactly as they were. *)
Theorem unPinPage_not_pinned_unchanged (w : World) (f : File) (p : PageId)
    (i : FrameId) :
  hashTable (mgr w) !! (f, p) = Some i →
  pinCnt (desc_at (mgr w) i) = 0 →
  unPinPage f p true w = Raised PageNotPinnedException w.
Proof. intros Hl Hp. by rewrite unPinPage_eq, Hl, Hp. Qed.

(** ** disposePage *)

(** C9. [disposePage] always returns, having made exactly one call on the
    file, [deletePage] of that page, and no [writePage].  If the page was
    cached its index entry is gone and its frame is reset, whatever its
    dirty bit and pin count were; if not, the manager is unchanged. *)
Theorem disposePage_discards (w : World) (f : File) (p : PageId) :
  reachable w →
  ∃ w', disposePage f p w = Normal tt w' ∧
    calls w' = calls w ++ [CallDeletePage f p] ∧
    match hashTable (mgr w) !! (f, p) with
    | Some i =>
        hashTable (mgr w') = delete (f, p) (hashTable (mgr w)) ∧
        desc_at (mgr w') i = BufDesc_Clear (desc_at (mgr w) i) ∧
        valid (desc_at (mgr w') i) = false ∧
        (∀ j, j ≠ i → desc_at (mgr w') j = desc_at (mgr w) j)
    | None => mgr w' = mgr w
    end.
Proof.
  intros Hreach. pose proof (reachable_wf w Hreach) as Hwf.
  rewrite disposePage_eq. eexists. split; [done|]. split; [done|]. simpl.
  destruct (hashTable (mgr w) !! (f, p)) as [i|] eqn:Hl; [|done].
  destruct (wf_index _ Hwf f p i Hl) as (Hi & _).
  pose proof (wf_in_range _ _ Hwf Hi) as Hr.
  split; [done|].
  rewrite desc_at_update_eq by done.
  split; [done|]. split; [done|].
  intros j Hj. by rewrite desc_at_update_ne by done.
Qed.

End Facts.

(** * The code on concrete inputs *)

Section Examples.
Local Existing Instance sample_files.

Ltac reach :=
  lazymatch goal with
  | |- reachable (World_new _) => apply reachable_new; split; reflexivity
  | |- reachable (step ?o ?w) =>
      apply (reachable_step w o); [reach | vm_compute; reflexivity]
  | |- reachable ?c => unfold c; reach
  end.

(** C1, on the code.  Pages 1 and 2 of file 1 sit in frames 0 and 1 and the
    caller's pointer holds the address of slot 1.  [readPage] of page 1 is
    an index hit on frame 0 and returns with the pointer still on slot 1;
    a pointer that held another address comes back as it was. *)
Theorem readPage_hit_leaves_page_alone :
  hashTable (mgr two_pages) !! (1, 1) = Some 0 ∧
  returned (readPage 1 1 (PtrSlot 1) two_pages) = Some (PtrSlot 1) ∧
  returned (readPage 1 1 (PtrOther 0) two_pages) = Some (PtrOther 0).
Proof. vm_compute. done. Qed.

(** C2, on the code.  [allocPage] on file 1, whose new page gets number 1,
    called with a variable that held 7: the caller gets 1 back, but the
    descriptor and the index entry are under page number 7, and
    [readPage] of page 1 then misses, reads the file and takes frame 1. *)
Theorem allocPage_keys_by_old_pageNo :
  returned (allocPage 1 7 (PtrOther 0) (World_new 2)) = Some (1, PtrSlot 0) ∧
  pageNo (desc_at (mgr after_allocPage) 0) = 7 ∧
  hashTable (mgr after_allocPage) !! (1, 7) = Some 0 ∧
  hashTable (mgr after_allocPage) !! (1, 1) = None ∧
  returned (readPage 1 1 (PtrOther 0) after_allocPage) = Some (PtrSlot 1) ∧
  calls (run (readPage 1 1 (PtrOther 0)) after_allocPage) =
    [CallAllocatePage 1; CallReadPage 1 1].
Proof. vm_compute. done. Qed.

(** C3, on the code.  The only page of file 1 in the pool is unpinned and
    dirty: [flushFile] throws BadBufferException and nothing is written,
    removed or reset. *)
Theorem flushFile_unpinned_BadBuffer :
  pinCnt (desc_at (mgr one_dirty_page) 0) = 0 ∧
  dirty (desc_at (mgr one_dirty_page) 0) = true ∧
  flushFile 1 one_dirty_page = Raised BadBufferException one_dirty_page.
Proof. vm_compute. done. Qed.

(** C4, on the code.  In a pool of two frames, frame 0 holds a pinned
    page and frame 1 a page that is valid, unpinned and referenced; every
    call so far has returned.  [allocBuf], and so [readPage] of another
    page, throws BufferExceededException: frame 0 is counted as pinned
    before and after the grace pass of frame 1. *)
Theorem allocBuf_gives_up_with_unpinned_frame :
  calls one_unpinned_of_two =
    [CallReadPage 1 1; CallReadPage 1 2; CallReadPage 1 3] ∧
  valid (desc_at (mgr one_unpinned_of_two) 1) = true ∧
  pinCnt (desc_at (mgr one_unpinned_of_two) 1) = 0 ∧
  refbit (desc_at (mgr one_unpinned_of_two) 1) = true ∧
  raised (allocBuf one_unpinned_of_two) = Some BufferExceededException ∧
  raised (readPage 1 4 (PtrOther 0) one_unpinned_of_two) =
    Some BufferExceededException.
Proof. vm_compute. done. Qed.

(** C5, on the code.  Frame 0 holds an unpinned page of file 1 and frame 1
    a pinned one: [flushFile] throws BadBufferException, not
    PagePinnedException. *)
Theorem flushFile_pinned_BadBuffer :
  file (desc_at (mgr unpinned_then_pinned) 1) = 1 ∧
  pinCnt (desc_at (mgr unpinned_then_pinned) 1) = 1 ∧
  raised (flushFile 1 unpinned_then_pinned) = Some BadBufferException.
Proof. vm_compute. done. Qed.

(** C6, on the code.  The only frame holds page 1 of file 1, valid, clean
    and unpinned, after a [readPage] and an [unPinPage] that both returned.
    [flushFile] of file 1 lets BadBufferException out to the caller, which
    is none of the three kinds of section 7: the frame is valid, and the
    throw is taken for it all the same. *)
Theorem flushFile_surfaces_BadBuffer :
  calls one_clean_page = [CallReadPage 1 1] ∧
  hashTable (mgr one_clean_page) !! (1, 1) = Some 0 ∧
  desc_at (mgr one_clean_page) 0 = mkBufDesc 1 1 0 0 false true true ∧
  perform (OpFlushFile 1) one_clean_page =
    Raised BadBufferException one_clean_page ∧
  spec_surfaced BadBufferException = false.
Proof. vm_compute. done. Qed.

Lemma perform_throws_witness :
  perform (OpReadPage 1 2 (PtrOther 0)) one_pinned_page =
    Raised BufferExceededException
      (step (OpReadPage 1 2 (PtrOther 0)) one_pinned_page) ∧
  may_throw (OpReadPage 1 2 (PtrOther 0)) BufferExceededException = true ∧
  code_surfaced BufferExceededException = true.
Proof.
  split.
  - vm_compute. reflexivity.
  - apply (perform_throws (OpReadPage 1 2 (PtrOther 0)) one_pinned_page
             (step (OpReadPage 1 2 (PtrOther 0)) one_pinned_page)).
    vm_compute. reflexivity.
Defined.

Lemma pinned_frame_never_victim_witness :
  reachable two_pages ∧
  (∀ w0 i w', mgr w0 = mgr two_pages → allocBuf w0 = Normal i w' →
     pinCnt (desc_at (mgr two_pages) i) = 0) ∧
  (∀ o i w', final (perform o two_pages) = Some w' →
     pinCnt (desc_at (mgr two_pages) i) ≠ 0 →
     o ≠ OpDisposePage (file (desc_at (mgr two_pages) i))
                       (pageNo (desc_at (mgr two_pages) i)) →
     still_holds (mgr two_pages) (mgr w') i).
Proof.
  assert (reachable two_pages) as Hreach by reach.
  split; [exact Hreach|].
  exact (pinned_frame_never_victim two_pages Hreach).
Defined.

Lemma unPinPage_pin_accounting_witness :
  reachable two_pages ∧
  hashTable (mgr two_pages) !! (1, 1) = Some 0 ∧
  desc_at (mgr two_pages) 0 = mkBufDesc 1 1 0 1 false true true ∧
  (∃ w', unPinPage 1 1 true two_pages = Normal tt w' ∧
     pinCnt (desc_at (mgr w') 0) = 0 ∧
     dirty (desc_at (mgr w') 0) = true ∧
     desc_at (mgr w') 0 = mkBufDesc 1 1 0 0 true true true) ∧
  (∃ w', unPinPage 1 1 false two_pages = Normal tt w' ∧
     pinCnt (desc_at (mgr w') 0) = 0 ∧
     dirty (desc_at (mgr w') 0) = false) ∧
  ∀ l w', pin_ops 1 1 l two_pages = Normal tt w' →
    hashTable (mgr w') !! (1, 1) = Some 0 ∧
    Z.of_N (pinCnt (desc_at (mgr w') 0)) =
    (1 + Z.of_N (fetches l) - Z.of_N (unpins l))%Z.
Proof.
  assert (reachable two_pages) as Hreach by reach.
  assert (hashTable (mgr two_pages) !! (1, 1) = Some 0) as Hl
    by (vm_compute; reflexivity).
  assert (desc_at (mgr two_pages) 0 = mkBufDesc 1 1 0 1 false true true)
    as Hd by (vm_compute; reflexivity).
  assert (pinCnt (desc_at (mgr two_pages) 0) ≠ 0) as Hp
    by (rewrite Hd; discriminate).
  pose proof (proj1 (proj2 (unPinPage_pin_accounting two_pages 1 1 Hreach))
                0 Hl) as (_ & Hunpin & Hseq).
  split; [exact Hreach|]. split; [exact Hl|]. split; [exact Hd|].
  split; [|split; [|exact Hseq]].
  - destruct (Hunpin Hp true) as (w' & Hu & _ & Hpin & Hdirty & Hall & _).
    exists w'. rewrite Hpin, Hdirty, Hall, Hd. by split.
  - destruct (Hunpin Hp false) as (w' & Hu & _ & Hpin & Hdirty & _).
    exists w'. rewrite Hpin, Hdirty, Hd. by split.
Defined.

Lemma unPinPage_not_pinned_unchanged_witness :
  hashTable (mgr one_clean_page) !! (1, 1) = Some 0 ∧
  pinCnt (desc_at (mgr one_clean_page) 0) = 0 ∧
  unPinPage 1 1 true one_clean_page =
    Raised PageNotPinnedException one_clean_page.
Proof.
  split; [vm_compute; reflexivity|]. split; [vm_compute; reflexivity|].
  apply (unPinPage_not_pinned_unchanged one_clean_page 1 1 0);
    vm_compute; reflexivity.
Defined.

Lemma disposePage_discards_witness :
  reachable one_dirty_page ∧
  ∃ w', disposePage 1 1 one_dirty_page = Normal tt w' ∧
    calls w' = calls one_dirty_page ++ [CallDeletePage 1 1] ∧
    match hashTable (mgr one_dirty_page) !! (1, 1) with
    | Some i =>
        hashTable (mgr w') = delete (1, 1) (hashTable (mgr one_dirty_page)) ∧
        desc_at (mgr w') i = BufDesc_Clear (desc_at (mgr one_dirty_page) i) ∧
        valid (desc_at (mgr w') i) = false ∧
        (∀ j, j ≠ i → desc_at (mgr w') j = desc_at (mgr one_dirty_page) j)
    | None => mgr w' = mgr one_dirty_page
    end.
Proof.
  assert (reachable one_dirty_page) as Hreach by reach.
  split; [exact Hreach|].
  exact (disposePage_discards one_dirty_page 1 1 Hreach).
Defined.

End Examples.

(** * More properties *)

Section MoreFacts.
Context `{FB : FileBehaviour}.

(** ** Fields an update of a descriptor leaves alone *)

Lemma hashTable_update_desc m i g :
  hashTable (update_desc i g m) = hashTable m.
Proof. done. Qed.

Lemma bufPool_update_desc m i g : bufPool (update_desc i g m) = bufPool m.
Proof. done. Qed.

Lemma numBufs_update_desc m i g : numBufs (update_desc i g m) = numBufs m.
Proof. done. Qed.

Lemma clockHand_update_desc m i g :
  clockHand (update_desc i g m) = clockHand m.
Proof. done. Qed.

(** ** What a sweep changes *)

Lemma swept_refl m : swept m m.
Proof. do 4 (split; [done|]). intros i. by split. Qed.

Lemma swept_trans m1 m2 m3 : swept m1 m2 → swept m2 m3 → swept m1 m3.
Proof.
  intros (Hn1 & Hp1 & Hh1 & Hl1 & Hd1) (Hn2 & Hp2 & Hh2 & Hl2 & Hd2).
  split; [congruence|]. split; [congruence|]. split; [congruence|].
  split; [congruence|]. intros i.
  destruct (Hd1 i) as [He1 Hr1], (Hd2 i) as [He2 Hr2].
  split; [congruence|auto].
Qed.

Lemma swept_clear_refbit m i : swept m (update_desc i (with_refbit false) m).
Proof.
  split; [done|]. split; [done|]. split; [done|].
  split; [apply length_update_desc|]. intros j.
  destruct (desc_at_update m i j (with_refbit false)) as [->|(_ & _ & ->)];
    [done|]. split; [done|]. simpl. done.
Qed.

Lemma swept_set_clockHand m c : swept m (set_clockHand c m).
Proof. do 4 (split; [done|]). intros i. by split. Qed.

Lemma swept_field m m' i :
  swept m m' →
  file (desc_at m' i) = file (desc_at m i) ∧
  pageNo (desc_at m' i) = pageNo (desc_at m i) ∧
  frameNo (desc_at m' i) = frameNo (desc_at m i) ∧
  pinCnt (desc_at m' i) = pinCnt (desc_at m i) ∧
  dirty (desc_at m' i) = dirty (desc_at m i) ∧
  valid (desc_at m' i) = valid (desc_at m i).
Proof.
  intros (_ & _ & _ & _ & Hd). destruct (Hd i) as [He _].
  unfold with_refbit in He. by injection He.
Qed.

Lemma swept_pool_at m m' i : swept m m' → pool_at m' i = pool_at m i.
Proof. intros (_ & Hp & _). unfold pool_at. by rewrite Hp. Qed.

Lemma loop_post_trans w1 w2 r :
  swept (mgr w1) (mgr w2) → calls w2 = calls w1 →
  loop_post w2 r → loop_post w1 r.
Proof.
  intros Hs Hc. destruct r as [a w'|e w'|]; simpl; [| |done].
  - intros (m1 & Hs1 & Hv & Hm & Hcalls). exists m1.
    split; [by eapply swept_trans|]. split; [done|]. split; [done|].
    by rewrite <- Hc.
  - intros (Hs1 & Hcalls). split; [by eapply swept_trans|congruence].
Qed.

Lemma allocBuf_loop_exact fuel : ∀ pinned w,
  loop_post w (allocBuf_loop fuel pinned w).
Proof.
  induction fuel as [|fuel IH]; intros pinned w; [done|].
  simpl. unfold bind at 1 2. simpl.
  set (hand := clockHand (mgr w)).
  set (d := desc_at (mgr w) hand).
  destruct (valid d) eqn:Hv.
  - destruct (refbit d) eqn:Hr.
    + unfold bind at 1 2. simpl.
      eapply loop_post_trans; [| |apply IH]; simpl; [|done].
      eapply swept_trans; [apply swept_clear_refbit|].
      apply swept_set_clockHand.
    + destruct (pinCnt d =? 0) eqn:Hp; simpl.
      * apply N.eqb_eq in Hp.
        unfold bind at 1. unfold when.
        destruct (dirty d) eqn:Hd; simpl.
        -- exists (mgr w). split; [apply swept_refl|].
           fold hand. fold d. split; [done|].
           unfold took, write_back. fold hand. fold d. by rewrite Hv, Hd.
        -- exists (mgr w). split; [apply swept_refl|].
           fold hand. fold d. split; [done|].
           unfold took, write_back. fold hand. fold d. rewrite Hv, Hd.
           simpl. by rewrite app_nil_r.
      * unfold bind at 1. simpl.
        destruct (wrap32 (pinned + 1) =? numBufs (mgr w)); simpl.
        -- split; [apply swept_refl|done].
        -- unfold bind at 1. simpl.
           eapply loop_post_trans; [| |apply IH]; simpl; [|done].
           apply swept_set_clockHand.
  - simpl. exists (mgr w). split; [apply swept_refl|].
    fold hand. fold d. split; [congruence|].
    unfold took, write_back. fold hand. fold d. rewrite Hv. simpl.
    by rewrite app_nil_r.
Qed.

Lemma allocBuf_exact w :
  match allocBuf w with
  | Normal i w' =>
      ∃ m1, swept (mgr w) m1 ∧ i = clockHand m1 ∧
        (valid (desc_at m1 i) = true →
         refbit (desc_at m1 i) = false ∧ pinCnt (desc_at m1 i) = 0) ∧
        mgr w' = update_desc i BufDesc_Clear (took m1) ∧
        calls w' = calls w ++ write_back (desc_at m1 i) (pool_at m1 i)
  | Raised e w' => swept (mgr w) (mgr w') ∧ calls w' = calls w
  | OutOfFuel => True
  end.
Proof.
  rewrite allocBuf_eq. set (w1 := mkWorld _ _).
  pose proof (allocBuf_loop_exact (allocBuf_fuel (mgr w)) 0 w1) as Hloop.
  assert (swept (mgr w) (mgr w1)) as Hs1 by apply swept_set_clockHand.
  destruct (allocBuf_loop (allocBuf_fuel (mgr w)) 0 w1) as [[] w2|e w2|];
    [| |done].
  - destruct Hloop as (m1 & Hs & Hv & Hm & Hc).
    assert (clockHand (took m1) = clockHand m1) as Hh.
    { unfold took. destruct (valid _); [|done]. simpl.
      by destruct (dirty _). }
    exists m1. cbn [mgr calls]. rewrite Hm, Hh.
    split; [by eapply swept_trans|]. done.
  - destruct Hloop as (Hs & Hc). split; [by eapply swept_trans|done].
Qed.

(** The frame [allocBuf] returns, in terms of the manager on entry. *)
Lemma allocBuf_effect w i w' :
  allocBuf w = Normal i w' →
  let d := desc_at (mgr w) i in
  (valid d = true → pinCnt d = 0) ∧
  calls w' = calls w ++ write_back d (pool_at (mgr w) i) ∧
  hashTable (mgr w') = evict_entry d (hashTable (mgr w)) ∧
  bufPool (mgr w') = bufPool (mgr w) ∧
  numBufs (mgr w') = numBufs (mgr w) ∧
  clockHand (mgr w') = i ∧
  length (bufDescTable (mgr w')) = length (bufDescTable (mgr w)) ∧
  ((N.to_nat i < length (bufDescTable (mgr w)))%nat →
   desc_at (mgr w') i = BufDesc_Clear d) ∧
  (∀ j, j ≠ i →
     with_refbit false (desc_at (mgr w') j) =
     with_refbit false (desc_at (mgr w) j)).
Proof.
  intros Ha d. pose proof (allocBuf_exact w) as Hx. rewrite Ha in Hx.
  destruct Hx as (m1 & Hs & Hi & Hv & Hm & Hc).
  destruct (swept_field _ _ i Hs) as (Hf & Hpn & Hfn & Hpin & Hdirty & Hvalid).
  pose proof (swept_pool_at _ _ i Hs) as Hpool.
  destruct Hs as (Hn & Hp & Hh & Hl & Hd).
  set (d1 := desc_at m1 i) in *.
  assert (write_back d1 (pool_at m1 i) = write_back d (pool_at (mgr w) i))
    as Hwb.
  { unfold write_back. fold d in Hf, Hdirty, Hvalid.
    by rewrite Hf, Hdirty, Hvalid, Hpool. }
  assert (hashTable (took m1) = evict_entry d (hashTable (mgr w))) as Hht.
  { unfold took, evict_entry. rewrite <- Hi. fold d1. fold d in Hf, Hpn, Hvalid.
    rewrite Hvalid. destruct (valid d); [|done]. simpl.
    by rewrite Hf, Hpn, Hh. }
  assert (bufPool (took m1) = bufPool m1 ∧ numBufs (took m1) = numBufs m1 ∧
          clockHand (took m1) = clockHand m1 ∧
          length (bufDescTable (took m1)) = length (bufDescTable m1) ∧
          ∀ j, with_refbit false (desc_at (took m1) j) =
               with_refbit false (with_dirty (dirty (desc_at (took m1) j))
                                    (desc_at m1 j)) ∧
               (j ≠ i → desc_at (took m1) j = desc_at m1 j))
    as (Htp & Htn & Hth & Htl & Htd).
  { unfold took. rewrite <- Hi. fold d1. destruct (valid d1); [|].
    - destruct (dirty d1) eqn:Hdd; simpl.
      + split; [done|]. split; [done|]. split; [done|].
        split; [apply length_update_desc|]. intros j.
        rewrite desc_at_set_hashTable.
        destruct (desc_at_update m1 i j (with_dirty false))
          as [->|(-> & _ & ->)].
        * split; [by destruct (desc_at m1 j)|done].
        * split; [done|]. by intros [].
      + do 4 (split; [done|]). intros j. rewrite desc_at_set_hashTable.
        split; [by destruct (desc_at m1 j)|done].
    - do 4 (split; [done|]). intros j.
      split; [by destruct (desc_at m1 j)|done]. }
  rewrite Hm, hashTable_update_desc, bufPool_update_desc,
    numBufs_update_desc, clockHand_update_desc, length_update_desc.
  split; [fold d in Hpin, Hvalid; rewrite <- Hvalid, <- Hpin; apply Hv|].
  split; [by rewrite Hc, Hwb|].
  split; [done|]. split; [congruence|]. split; [congruence|].
  split; [congruence|].
  split; [congruence|].
  split.
  - intros Hr.
    rewrite desc_at_update_eq by congruence.
    unfold BufDesc_Clear. f_equal.
    destruct (Htd i) as [He _].
    assert (frameNo (desc_at (took m1) i) = frameNo (desc_at m1 i)) as ->.
    { unfold with_refbit, with_dirty in He. by injection He. }
    done.
  - intros j Hj.
    rewrite desc_at_update_ne by congruence.
    destruct (Htd j) as [_ Hsame]. rewrite Hsame by done. apply Hd.
Qed.

Lemma allocBuf_failure w e w' :
  allocBuf w = Raised e w' →
  e = BufferExceededException ∧ swept (mgr w) (mgr w') ∧ calls w' = calls w.
Proof.
  intros Ha. pose proof (allocBuf_exact w) as Hx. rewrite Ha in Hx.
  split; [|done]. symmetry. by apply (throws_only_allocBuf w e w').
Qed.

(** ** readPage and allocPage, frame by frame *)

Lemma pool_at_install_eq m f p (i : FrameId) pg :
  (N.to_nat i < length (bufPool m))%nat →
  pool_at (install f p i pg m) i = pg.
Proof.
  intros Hi. unfold pool_at, install. simpl.
  by apply list_lookup_total_insert_eq.
Qed.

Lemma pool_at_install_ne m f p (i j : FrameId) pg :
  i ≠ j → pool_at (install f p i pg m) j = pool_at m j.
Proof.
  intros Hne. unfold pool_at, install. simpl.
  apply list_lookup_total_insert_ne. lia.
Qed.

Lemma desc_at_install_ne m f p (i j : FrameId) pg :
  i ≠ j → desc_at (install f p i pg m) j = desc_at m j.
Proof. intros Hne. unfold install. by rewrite desc_at_update_ne. Qed.

Lemma desc_at_install_eq m f p (i : FrameId) pg :
  (N.to_nat i < length (bufDescTable m))%nat →
  desc_at (install f p i pg m) i = BufDesc_Set f p (desc_at m i).
Proof. intros Hi. unfold install. by rewrite desc_at_update_eq. Qed.

Lemma readPage_miss_loads_holds (w : World) (f : File) (p : PageId)
    (page ptr : PagePtr) (w' : World) :
  reachable w → hashTable (mgr w) !! (f, p) = None →
  readPage f p page w = Normal ptr w' →
  ∃ i : FrameId, ptr = PtrSlot i ∧ i < numBufs (mgr w) ∧
    let d := desc_at (mgr w) i in
    let wb := write_back d (pool_at (mgr w) i) in
    pinCnt d = 0 ∧
    calls w' = calls w ++ wb ++ [CallReadPage f p] ∧
    hashTable (mgr w') = <[(f, p) := i]> (evict_entry d (hashTable (mgr w))) ∧
    pool_at (mgr w') i = readPage_result (calls w ++ wb) f p ∧
    desc_at (mgr w') i = mkBufDesc f p (frameNo d) 1 false true true ∧
    ∀ j, j ≠ i →
      pool_at (mgr w') j = pool_at (mgr w) j ∧
      with_refbit false (desc_at (mgr w') j) =
      with_refbit false (desc_at (mgr w) j).
Proof.
  intros Hreach Hl. pose proof (reachable_wf w Hreach) as Hwf.
  rewrite (readPage_miss _ _ _ _ Hl).
  pose proof (allocBuf_spec w Hwf) as Hspec.
  destruct (allocBuf w) as [i w1|e w1|] eqn:Ha; [|done|done].
  destruct Hspec as (Hwf1 & Hi & Hpin & _).
  destruct (allocBuf_effect w i w1 Ha)
    as (_ & Hc & Hht & Hp & Hn & _ & Hlen & Hclear & Hothers).
  pose proof (wf_in_range _ _ Hwf Hi) as Hr.
  intros [= <- <-]. exists i. split; [done|]. split; [done|].
  cbv zeta. cbn [mgr calls].
  split; [done|].
  split; [by rewrite Hc, <- app_assoc|].
  split; [unfold install; simpl; by rewrite Hht|].
  split.
  { rewrite pool_at_install_eq; [by rewrite Hc|].
    rewrite Hp, (wf_pool _ Hwf), <- (wf_table _ Hwf). done. }
  split.
  { rewrite desc_at_install_eq by congruence. by rewrite Hclear. }
  intros j Hj. rewrite pool_at_install_ne, desc_at_install_ne by congruence.
  split; [unfold pool_at; by rewrite Hp|by apply Hothers].
Qed.


Lemma readPage_failure_harmless_holds (w : World) (f : File) (p : PageId)
    (page : PagePtr) (e : Exn) (w' : World) :
  readPage f p page w = Raised e w' →
  e = BufferExceededException ∧ hashTable (mgr w) !! (f, p) = None ∧
  calls w' = calls w ∧ swept (mgr w) (mgr w').
Proof.
  destruct (hashTable (mgr w) !! (f, p)) as [i|] eqn:Hl.
  - by rewrite (readPage_hit _ _ _ _ _ Hl).
  - rewrite (readPage_miss _ _ _ _ Hl).
    destruct (allocBuf w) as [i w1|e1 w1|] eqn:Ha; [done| |done].
    intros [= <- <-].
    destruct (allocBuf_failure w e1 w1 Ha) as (-> & Hs & Hc). done.
Qed.

(** X6. A [readPage] that throws has thrown BufferExceededException on a
    miss, has called no file, and has left the index, the pool and every
    descriptor as they were, but for refbits it cleared. *)
Theorem readPage_failure_harmless (w : World) (f : File) (p : PageId)
    (page : PagePtr) (e : Exn) (w' : World) :
  readPage f p page w = Raised e w' →
  e = BufferExceededException ∧ hashTable (mgr w) !! (f, p) = None ∧
  calls w' = calls w ∧ swept (mgr w) (mgr w').
Proof. apply readPage_failure_harmless_holds. Qed.




(** X5. After a [readPage] that returns, hit or miss, the page is in the
    index, in a frame that is valid, referenced and pinned; a second
    [readPage] of it returns too, calls no file, and adds one to the pin
    count. *)
Theorem readPage_then_hit (w : World) (f : File) (p : PageId)
    (page ptr : PagePtr) (w' : World) :
  reachable w → readPage f p page w = Normal ptr w' →
  ∃ i : FrameId,
    hashTable (mgr w') !! (f, p) = Some i ∧ i < numBufs (mgr w') ∧
    valid (desc_at (mgr w') i) = true ∧ refbit (desc_at (mgr w') i) = true ∧
    file (desc_at (mgr w') i) = f ∧ pageNo (desc_at (mgr w') i) = p ∧
    0 < pinCnt (desc_at (mgr w') i) ∧
    ∀ page2, ∃ w'',
      readPage f p page2 w' = Normal page2 w'' ∧
      calls w'' = calls w' ∧
      hashTable (mgr w'') = hashTable (mgr w') ∧
      bufPool (mgr w'') = bufPool (mgr w') ∧
      pinCnt (desc_at (mgr w'') i) = pinCnt (desc_at (mgr w') i) + 1.
Proof.
  intros Hreach Hrun. pose proof (reachable_wf w Hreach) as Hwf.
  assert (wf (mgr w')) as Hwf'.
  { apply (readPage_wf f p page w Hwf). by rewrite Hrun. }
  assert (∃ i : FrameId, hashTable (mgr w') !! (f, p) = Some i ∧
            refbit (desc_at (mgr w') i) = true ∧
            0 < pinCnt (desc_at (mgr w') i)) as (i & Hl' & Href & Hpin).
  { destruct (hashTable (mgr w) !! (f, p)) as [i|] eqn:Hl.
    - rewrite (readPage_hit _ _ _ _ _ Hl) in Hrun. injection Hrun as <- <-.
      destruct (wf_index _ Hwf f p i Hl) as (Hi & _).
      pose proof (wf_in_range _ _ Hwf Hi) as Hr.
      exists i. cbn [mgr]. split; [done|].
      rewrite desc_at_update_eq by (by rewrite length_update_desc).
      rewrite desc_at_update_eq by done. simpl. split; [done|lia].
    - destruct (readPage_miss_loads_holds w f p page ptr w' Hreach Hl Hrun)
        as (i & _ & _ & _ & _ & Hht & _ & Hd & _).
      exists i. rewrite Hht, Hd. split; [apply lookup_insert_eq|]. simpl.
      split; [done|lia]. }
  destruct (wf_index _ Hwf' f p i Hl') as (Hi & Hv & Hf & Hp).
  pose proof (wf_in_range _ _ Hwf' Hi) as Hr.
  exists i. do 7 (split; [done|]). intros page2.
  rewrite (readPage_hit _ _ _ _ _ Hl'). eexists. split; [done|].
  cbn [mgr calls]. do 3 (split; [done|]).
  rewrite desc_at_update_eq by (by rewrite length_update_desc).
  by rewrite desc_at_update_eq by done.
Qed.

(** ** The destructor *)

Lemma destroy_body_eq i w :
  destroy_body i w =
  let d := desc_at (mgr w) i in
  Normal tt
    (if dirty d && valid d
     then mkWorld (update_desc i (with_dirty false) (mgr w))
                  (calls w ++ [CallWritePage (file d) (pool_at (mgr w) i)])
     else w).
Proof.
  unfold destroy_body, bind, desc, gets. simpl.
  by destruct (dirty (desc_at (mgr w) i) && valid (desc_at (mgr w) i)).
Qed.

Lemma dirty_writes_cons d pg t p :
  dirty_writes (d :: t) (pg :: p) =
  (if dirty d && valid d then [CallWritePage (file d) pg] else [])
  ++ dirty_writes t p.
Proof. done. Qed.

Lemma destroy_loop count : ∀ (k : nat) w,
  length (bufDescTable (mgr w)) = (k + count)%nat →
  length (bufPool (mgr w)) = (k + count)%nat →
  ∃ w', for_frames count (N.of_nat k) destroy_body w = Normal tt w' ∧
    calls w' = calls w ++
      dirty_writes (drop k (bufDescTable (mgr w))) (drop k (bufPool (mgr w))) ∧
    bufPool (mgr w') = bufPool (mgr w) ∧
    hashTable (mgr w') = hashTable (mgr w) ∧
    numBufs (mgr w') = numBufs (mgr w) ∧
    clockHand (mgr w') = clockHand (mgr w) ∧
    length (bufDescTable (mgr w')) = length (bufDescTable (mgr w)) ∧
    ∀ i : FrameId, desc_at (mgr w') i =
      if decide (k ≤ N.to_nat i)%nat then flushed (desc_at (mgr w) i)
      else desc_at (mgr w) i.
Proof.
  induction count as [|count IH]; intros k w Ht Hp.
  - exists w. split; [done|].
    rewrite !drop_ge by lia. split; [by rewrite app_nil_r|].
    do 5 (split; [done|]). intros i. case_decide; [|done].
    unfold flushed, desc_at. rewrite list_lookup_total_alt.
    rewrite lookup_ge_None_2 by lia. done.
  - cbn [for_frames]. unfold bind at 1. rewrite destroy_body_eq. cbv zeta.
    set (d := desc_at (mgr w) (N.of_nat k)).
    set (pg := pool_at (mgr w) (N.of_nat k)).
    assert (bufDescTable (mgr w) !! k = Some d) as Hd.
    { unfold d, desc_at. rewrite Nat2N.id.
      apply list_lookup_lookup_total_lt. lia. }
    assert (bufPool (mgr w) !! k = Some pg) as Hpg.
    { unfold pg, pool_at. rewrite Nat2N.id.
      apply list_lookup_lookup_total_lt. lia. }
    rewrite (drop_S _ _ _ Hd), (drop_S _ _ _ Hpg), dirty_writes_cons.
    replace (N.of_nat k + 1) with (N.of_nat (S k)) by lia.
    set (w1 := if dirty d && valid d then _ else w).
    assert (bufPool (mgr w1) = bufPool (mgr w) ∧
            hashTable (mgr w1) = hashTable (mgr w) ∧
            numBufs (mgr w1) = numBufs (mgr w) ∧
            clockHand (mgr w1) = clockHand (mgr w) ∧
            length (bufDescTable (mgr w1)) = length (bufDescTable (mgr w)) ∧
            drop (S k) (bufDescTable (mgr w1)) =
              drop (S k) (bufDescTable (mgr w)) ∧
            calls w1 = calls w ++
              (if dirty d && valid d then [CallWritePage (file d) pg] else []) ∧
            ∀ i : FrameId, desc_at (mgr w1) i =
              if decide (N.to_nat i = k) then flushed (desc_at (mgr w) i)
              else desc_at (mgr w) i)
      as (H1 & H2 & H3 & H4 & H5 & H6 & H7 & H8).
    { unfold w1. destruct (dirty d && valid d) eqn:Hdv; cbn [mgr calls].
      - do 4 (split; [done|]). split; [apply length_update_desc|].
        split.
        { unfold update_desc. simpl. rewrite Nat2N.id.
          apply drop_insert_lt. lia. }
        split; [done|]. intros i. case_decide as Hi.
        + assert (i = N.of_nat k) as -> by lia.
          rewrite desc_at_update_eq by (rewrite Nat2N.id; lia).
          fold d. unfold flushed. by rewrite Hdv.
        + rewrite desc_at_update_ne by lia. done.
      - do 6 (split; [done|]). split; [by rewrite app_nil_r|].
        intros i. case_decide as Hi; [|done].
        assert (i = N.of_nat k) as -> by lia.
        fold d. unfold flushed. by rewrite Hdv. }
    destruct (IH (S k) w1) as (w' & Hrun & Hc & G1 & G2 & G3 & G4 & G5 & G6);
      [lia|rewrite H1; lia|].
    exists w'. split; [done|].
    split; [by rewrite Hc, H7, H6, H1, <- app_assoc|].
    do 4 (split; [congruence|]). split; [congruence|].
    intros i. rewrite G6, H8.
    destruct (decide (S k ≤ N.to_nat i)%nat), (decide (N.to_nat i = k)),
      (decide (k ≤ N.to_nat i)%nat); try lia; done.
Qed.

Lemma destructor_writes_dirty_holds (w : World) :
  reachable w →
  ∃ w', destroy_flush w = Normal tt w' ∧
    calls w' = calls w ++
      dirty_writes (bufDescTable (mgr w)) (bufPool (mgr w)) ∧
    (∀ i, desc_at (mgr w') i = with_dirty false (desc_at (mgr w) i)) ∧
    bufPool (mgr w') = bufPool (mgr w) ∧
    hashTable (mgr w') = hashTable (mgr w) ∧
    clockHand (mgr w') = clockHand (mgr w) ∧
    ∃ w'', BufMgr_destroy w = Normal tt w'' ∧ calls w'' = calls w' ∧
      bufPool (mgr w'') = [] ∧ bufDescTable (mgr w'') = [].
Proof.
  intros Hreach. pose proof (reachable_wf w Hreach) as Hwf.
  destruct (destroy_loop (N.to_nat (numBufs (mgr w))) 0 w)
    as (w' & Hrun & Hc & H1 & H2 & H3 & H4 & H5 & H6).
  { by rewrite (wf_table _ Hwf). }
  { by rewrite (wf_pool _ Hwf). }
  assert (destroy_flush w = Normal tt w') as Hflush.
  { unfold destroy_flush. unfold bind at 1. simpl. exact Hrun. }
  exists w'. split; [done|]. split; [done|]. split.
  { intros i. rewrite H6. rewrite decide_True by lia.
    unfold flushed. destruct (dirty (desc_at (mgr w) i)) eqn:Hd.
    - destruct (valid (desc_at (mgr w) i)) eqn:Hv; [done|].
      destruct (wf_invalid _ Hwf i Hv) as (_ & Hd' & _). congruence.
    - simpl. destruct (desc_at (mgr w) i). simpl in *. by subst. }
  do 3 (split; [done|]).
  unfold BufMgr_destroy. unfold bind at 1. rewrite Hflush.
  eexists. split; [done|]. done.
Qed.

(** X16. In any state the manager can reach, the loop of the destructor
    returns having written each dirty frame's content to that frame's file,
    once and in frame order, pinned or not, and nothing else; every dirty
    bit is then clear, and the index, the pool and the hand are as they
    were.  The destructor then drops both arrays and makes no further
    call. *)
Theorem destructor_writes_dirty (w : World) :
  reachable w →
  ∃ w', destroy_flush w = Normal tt w' ∧
    calls w' = calls w ++
      dirty_writes (bufDescTable (mgr w)) (bufPool (mgr w)) ∧
    (∀ i, desc_at (mgr w') i = with_dirty false (desc_at (mgr w) i)) ∧
    bufPool (mgr w') = bufPool (mgr w) ∧
    hashTable (mgr w') = hashTable (mgr w) ∧
    clockHand (mgr w') = clockHand (mgr w) ∧
    ∃ w'', BufMgr_destroy w = Normal tt w'' ∧ calls w'' = calls w' ∧
      bufPool (mgr w'') = [] ∧ bufDescTable (mgr w'') = [].
Proof. apply destructor_writes_dirty_holds. Qed.

(** When no frame is dirty the destructor has nothing to write. *)
Lemma dirty_writes_clean t p :
  (∀ d, d ∈ t → dirty d = false) → dirty_writes t p = [].
Proof.
  revert p. induction t as [|d t IH]; intros p Hall; [done|].
  destruct p as [|pg p]; [done|]. rewrite dirty_writes_cons.
  rewrite (Hall d) by left. simpl. apply IH. intros d' Hd'.
  apply Hall. by right.
Qed.

Lemma dirty_writes_elem t : ∀ p (k : nat) d pg,
  t !! k = Some d → p !! k = Some pg →
  dirty d = true → valid d = true →
  CallWritePage (file d) pg ∈ dirty_writes t p.
Proof.
  induction t as [|d0 t IH]; intros [|pg0 p] [|k] d pg Ht Hp Hd Hv;
    try done; rewrite dirty_writes_cons.
  - injection Ht as ->. injection Hp as ->. rewrite Hd, Hv. simpl. left.
  - apply elem_of_app. right. by apply (IH p k).
Qed.

(** X17. A page that is cached and dirty when the manager is destroyed is
    written to its own file by the destructor, with the content of its
    frame. *)
Theorem destructor_flushes_cached_dirty (w : World) (f : File) (p : PageId)
    (i : FrameId) :
  reachable w → hashTable (mgr w) !! (f, p) = Some i →
  dirty (desc_at (mgr w) i) = true →
  ∃ w', BufMgr_destroy w = Normal tt w' ∧
    ∃ written, calls w' = calls w ++ written ∧
      CallWritePage f (pool_at (mgr w) i) ∈ written.
Proof.
  intros Hreach Hl Hd. pose proof (reachable_wf w Hreach) as Hwf.
  destruct (destructor_writes_dirty_holds w Hreach)
    as (w1 & _ & Hc & _ & _ & _ & _ & w2 & Hrun & Hc2 & _).
  exists w2. split; [done|]. eexists. split; [by rewrite Hc2, Hc|].
  destruct (wf_index _ Hwf f p i Hl) as (Hi & Hv & Hf & _).
  pose proof (wf_in_range _ _ Hwf Hi) as Hr.
  rewrite <- Hf.
  apply (dirty_writes_elem _ _ (N.to_nat i)); [| |done|done].
  - by apply list_lookup_lookup_total_lt.
  - apply list_lookup_lookup_total_lt.
    rewrite (wf_pool _ Hwf), <- (wf_table _ Hwf). done.
Qed.

(** ** printSelf and the size of the index *)

Lemma valid_frames_cons m k count :
  valid_frames m k (S count) =
  (if valid (desc_at m (N.of_nat k)) then [N.of_nat k] else [])
  ++ valid_frames m (S k) count.
Proof.
  unfold valid_frames, frame_range. cbn [seq fmap list_fmap].
  rewrite filter_cons. destruct (valid (desc_at m (N.of_nat k))) eqn:Hv.
  - by rewrite decide_True by done.
  - by rewrite decide_False by congruence.
Qed.

Lemma printSelf_loop_eq m count : ∀ (k : nat) acc,
  printSelf_loop count (N.of_nat k) acc m =
  ((λ i, OutFrame i (desc_at m i)) <$> frame_range k count,
   (acc + Z.of_nat (length (valid_frames m k count)))%Z).
Proof.
  induction count as [|count IH]; intros k acc.
  - simpl. f_equal. unfold valid_frames, frame_range. simpl. lia.
  - cbn [printSelf_loop]. cbv zeta.
    replace (N.of_nat k + 1) with (N.of_nat (S k)) by lia.
    rewrite IH, valid_frames_cons.
    unfold frame_range. cbn [seq fmap list_fmap]. f_equal.
    destruct (valid (desc_at m (N.of_nat k))); simpl; lia.
Qed.

Lemma elem_of_valid_frames m k count (i : FrameId) :
  i ∈ valid_frames m k count ↔
  (k ≤ N.to_nat i < k + count)%nat ∧ valid (desc_at m i) = true.
Proof.
  unfold valid_frames, frame_range. rewrite list_elem_of_filter.
  rewrite list_elem_of_fmap. split.
  - intros [Hv (n & -> & Hn)]. apply elem_of_seq in Hn.
    split; [lia|done].
  - intros [Hr Hv]. split; [done|]. exists (N.to_nat i).
    split; [lia|]. apply elem_of_seq. lia.
Qed.

(** X3. In any state the manager can reach, two index entries never point
    at the same frame. *)
Theorem index_frames_distinct (w : World) (f1 f2 : File) (p1 p2 : PageId)
    (i : FrameId) :
  reachable w →
  hashTable (mgr w) !! (f1, p1) = Some i →
  hashTable (mgr w) !! (f2, p2) = Some i →
  (f1, p1) = (f2, p2).
Proof.
  intros Hreach H1 H2. pose proof (reachable_wf w Hreach) as Hwf.
  destruct (wf_index _ Hwf _ _ _ H1) as (_ & _ & <- & <-).
  destruct (wf_index _ Hwf _ _ _ H2) as (_ & _ & <- & <-). done.
Qed.

Lemma index_size_le_valid m :
  wf m →
  (size (hashTable m) ≤ length (valid_frames m 0 (N.to_nat (numBufs m))))%nat.
Proof.
  intros Hwf. rewrite <- length_map_to_list.
  rewrite <- (length_fmap snd).
  apply submseteq_length, NoDup_submseteq.
  - apply NoDup_fmap_2_strong; [|apply NoDup_map_to_list].
    intros [[f1 p1] i1] [[f2 p2] i2] H1 H2 Heq. simpl in Heq. subst i2.
    apply elem_of_map_to_list in H1, H2.
    destruct (wf_index _ Hwf _ _ _ H1) as (_ & _ & <- & <-).
    destruct (wf_index _ Hwf _ _ _ H2) as (_ & _ & <- & <-). done.
  - intros i Hi. apply list_elem_of_fmap in Hi as ([[f p] i'] & -> & Hin).
    apply elem_of_map_to_list in Hin. simpl.
    destruct (wf_index _ Hwf _ _ _ Hin) as (Hr & Hv & _).
    apply elem_of_valid_frames. split; [lia|done].
Qed.

(** X18. [printSelf] prints the descriptors of frames 0 to numBufs - 1 in
    order, then a total that is the number of valid frames; in any state
    the manager can reach that total is at least the number of index
    entries and at most numBufs. *)
Theorem printSelf_total (w : World) :
  reachable w →
  printSelf (mgr w) =
    ((λ i, OutFrame i (desc_at (mgr w) i)) <$>
       frame_range 0 (N.to_nat (numBufs (mgr w))))
    ++ [OutTotal (Z.of_nat (length
          (valid_frames (mgr w) 0 (N.to_nat (numBufs (mgr w))))))] ∧
  (Z.of_nat (size (hashTable (mgr w))) ≤
   Z.of_nat (length (valid_frames (mgr w) 0 (N.to_nat (numBufs (mgr w)))))
   ≤ Z.of_N (numBufs (mgr w)))%Z.
Proof.
  intros Hreach. pose proof (reachable_wf w Hreach) as Hwf. split.
  - unfold printSelf.
    pose proof (printSelf_loop_eq (mgr w) (N.to_nat (numBufs (mgr w)))
                  0%nat 0%Z) as Hloop.
    change (N.of_nat 0) with 0 in Hloop. by rewrite Hloop.
  - pose proof (index_size_le_valid _ Hwf).
    assert (length (valid_frames (mgr w) 0 (N.to_nat (numBufs (mgr w))))
            ≤ N.to_nat (numBufs (mgr w)))%nat.
    { unfold valid_frames, frame_range.
      etrans; [apply length_filter|]. by rewrite length_fmap, length_seq. }
    lia.
Qed.

(** ** The constructor and the first frame *)

Lemma desc_at_new bufs (i : FrameId) :
  valid (desc_at (BufMgr_new bufs) i) = false ∧
  pinCnt (desc_at (BufMgr_new bufs) i) = 0 ∧
  (i < bufs → frameNo (desc_at (BufMgr_new bufs) i) = i).
Proof.
  unfold desc_at. simpl. rewrite list_lookup_total_alt, list_lookup_fmap.
  destruct (seq 0 (N.to_nat bufs) !! N.to_nat i) as [n|] eqn:Hn; simpl.
  - split; [done|]. split; [done|]. intros _.
    apply lookup_seq in Hn as [-> _]. simpl. lia.
  - split; [done|]. split; [done|]. intros Hi.
    apply lookup_ge_None_1 in Hn. rewrite length_seq in Hn. lia.
Qed.

(** When the frame after the hand is invalid [allocBuf] returns it at once:
    no file is called and the index is untouched. *)
Lemma allocBuf_takes_free_next w :
  wf (mgr w) →
  let next := (clockHand (mgr w) + 1) mod numBufs (mgr w) in
  valid (desc_at (mgr w) next) = false →
  allocBuf w =
  Normal next
    (mkWorld (update_desc next BufDesc_Clear (set_clockHand next (mgr w)))
             (calls w)).
Proof.
  intros Hwf next Hv. rewrite allocBuf_eq.
  pose proof (wf_size _ Hwf). pose proof (wf_hand _ Hwf).
  assert (wrap32 (clockHand (mgr w) + 1) = clockHand (mgr w) + 1) as ->.
  { unfold wrap32. apply N.mod_small. lia. }
  fold next. unfold allocBuf_fuel. cbn [allocBuf_loop].
  unfold bind at 1 2. cbn [gets desc mgr clockHand set_clockHand].
  rewrite desc_at_set_clockHand, Hv. done.
Qed.

(** X2. A manager constructed with [bufs] frames (at least one) has every
    frame invalid and unpinned, an empty index, and the hand on the last
    frame; the first [readPage] reads the page from the file into frame 0,
    whatever page it is, and leaves the hand on 0. *)
Theorem constructor_first_frame (bufs : N) (f : File) (p : PageId)
    (page : PagePtr) :
  0 < bufs < 2 ^ 32 →
  numBufs (BufMgr_new bufs) = bufs ∧
  length (bufDescTable (BufMgr_new bufs)) = N.to_nat bufs ∧
  length (bufPool (BufMgr_new bufs)) = N.to_nat bufs ∧
  hashTable (BufMgr_new bufs) = ∅ ∧
  clockHand (BufMgr_new bufs) = bufs - 1 ∧
  (∀ i, valid (desc_at (BufMgr_new bufs) i) = false ∧
        pinCnt (desc_at (BufMgr_new bufs) i) = 0) ∧
  ∃ w', readPage f p page (World_new bufs) = Normal (PtrSlot 0) w' ∧
    calls w' = [CallReadPage f p] ∧
    clockHand (mgr w') = 0 ∧
    hashTable (mgr w') = {[ (f, p) := 0 ]} ∧
    pool_at (mgr w') 0 = readPage_result [] f p ∧
    desc_at (mgr w') 0 = mkBufDesc f p 0 1 false true true.
Proof.
  intros Hb. pose proof (wf_new bufs Hb) as Hwf.
  split; [done|]. split; [apply Hwf|]. split; [apply Hwf|]. split; [done|].
  assert (clockHand (BufMgr_new bufs) = bufs - 1) as Hhand.
  { simpl. unfold wrap32.
    replace (bufs + (2 ^ 32 - 1)) with ((bufs - 1) + 1 * 2 ^ 32) by lia.
    rewrite N.Div0.mod_add. apply N.mod_small. lia. }
  split; [done|]. split.
  { intros i. destruct (desc_at_new bufs i) as (? & ? & _). done. }
  assert ((clockHand (mgr (World_new bufs)) + 1)
            mod numBufs (mgr (World_new bufs)) = 0) as Hnext.
  { cbn [World_new mgr]. rewrite Hhand. cbn [numBufs BufMgr_new].
    replace (bufs - 1 + 1) with bufs by lia. apply N.Div0.mod_same. }
  pose proof (allocBuf_takes_free_next (World_new bufs) Hwf) as Ha.
  cbv zeta in Ha. rewrite Hnext in Ha.
  specialize (Ha (proj1 (desc_at_new bufs 0))).
  assert (hashTable (mgr (World_new bufs)) !! (f, p) = None) as Hl
    by apply lookup_empty.
  rewrite (readPage_miss _ _ _ _ Hl), Ha. eexists. split; [done|].
  cbn [mgr calls]. split; [done|]. split; [done|].
  split; [done|].
  assert (N.to_nat 0 < N.to_nat bufs)%nat as Hr by lia.
  split.
  - unfold pool_at, install. simpl.
    apply list_lookup_total_insert_eq. rewrite length_replicate. lia.
  - rewrite desc_at_install_eq.
    + rewrite desc_at_update_eq.
      * rewrite desc_at_set_clockHand. unfold BufDesc_Set, BufDesc_Clear.
        simpl. destruct (desc_at_new bufs 0) as (_ & _ & ->); [done|apply Hb].
      * simpl. rewrite length_map, length_seq. lia.
    + rewrite length_update_desc. simpl. rewrite length_map, length_seq. lia.
Qed.

(** X1. The invariant: in any state the manager can reach, both arrays have
    numBufs entries (at least one), the hand is a frame number, every index
    entry points at a frame that is valid and holds that very page, and
    every invalid frame is unpinned, clean, unreferenced and names no
    file. *)
Theorem manager_invariant (w : World) :
  reachable w →
  0 < numBufs (mgr w) < 2 ^ 32 ∧
  length (bufDescTable (mgr w)) = N.to_nat (numBufs (mgr w)) ∧
  length (bufPool (mgr w)) = N.to_nat (numBufs (mgr w)) ∧
  clockHand (mgr w) < numBufs (mgr w) ∧
  (∀ f p i, hashTable (mgr w) !! (f, p) = Some i →
     i < numBufs (mgr w) ∧ valid (desc_at (mgr w) i) = true ∧
     file (desc_at (mgr w) i) = f ∧ pageNo (desc_at (mgr w) i) = p) ∧
  (∀ i, valid (desc_at (mgr w) i) = false →
     pinCnt (desc_at (mgr w) i) = 0 ∧ dirty (desc_at (mgr w) i) = false ∧
     refbit (desc_at (mgr w) i) = false ∧ file (desc_at (mgr w) i) = NULL).
Proof.
  intros Hreach. destruct (reachable_wf w Hreach). done.
Qed.

(** ** The loop of allocBuf ends *)

Lemma allocBuf_loop_S fuel pinned w :
  allocBuf_loop (S fuel) pinned w =
  let hand := clockHand (mgr w) in
  let d := desc_at (mgr w) hand in
  if valid d then
    if refbit d then
      allocBuf_loop fuel pinned
        (mkWorld (set_clockHand (wrap32 (hand + 1) mod numBufs (mgr w))
                    (update_desc hand (with_refbit false) (mgr w)))
                 (calls w))
    else if negb (pinCnt d =? 0) then
      if wrap32 (pinned + 1) =? numBufs (mgr w)
      then Raised BufferExceededException w
      else allocBuf_loop fuel (wrap32 (pinned + 1))
             (mkWorld (set_clockHand (wrap32 (hand + 1) mod numBufs (mgr w))
                         (mgr w)) (calls w))
    else
      (when (dirty d)
         (pg <- gets (λ m, pool_at m hand);;
          file_writePage (file d) pg;;
          modify_desc hand (with_dirty false));;
       hashTable_remove (file d) (pageNo d)) w
  else Normal tt w.
Proof.
  cbn [allocBuf_loop]. unfold bind at 1 2. simpl.
  destruct (valid _); [|done]. destruct (refbit _); [done|].
  destruct (pinCnt _ =? 0); simpl; [done|].
  unfold bind at 1. simpl. by destruct (wrap32 (pinned + 1) =? _).
Qed.

Lemma allocBuf_loop_more_fuel fuel : ∀ extra pinned w,
  allocBuf_loop fuel pinned w ≠ OutOfFuel →
  allocBuf_loop (fuel + extra) pinned w = allocBuf_loop fuel pinned w.
Proof.
  induction fuel as [|fuel IH]; intros extra pinned w; [done|].
  change (S fuel + extra)%nat with (S (fuel + extra)).
  rewrite !allocBuf_loop_S. cbv zeta.
  destruct (valid _); [|done]. destruct (refbit _); [apply IH|].
  destruct (negb _); [|done].
  destruct (wrap32 (pinned + 1) =? _); [done|apply IH].
Qed.

(** X8. In any state the manager can reach, the [while] loop of [allocBuf]
    ends within 2 * numBufs iterations, with a frame or with the throw:
    run with any larger bound it gives that same result. *)
Theorem allocBuf_loop_bounded (w w0 : World) (fuel : nat) :
  reachable w → mgr w0 = mgr w →
  (2 * N.to_nat (numBufs (mgr w)) ≤ fuel)%nat →
  let start := run advanceClock w0 in
  allocBuf_loop (2 * N.to_nat (numBufs (mgr w))) 0 start ≠ OutOfFuel ∧
  allocBuf_loop fuel 0 start =
  allocBuf_loop (2 * N.to_nat (numBufs (mgr w))) 0 start.
Proof.
  intros Hreach Hm Hfuel start. pose proof (reachable_wf w Hreach) as Hwf.
  rewrite <- Hm in *.
  assert (wf (mgr start)) as Hwfs by (by apply wf_advance).
  pose proof (wf_size _ Hwf) as Hsz.
  assert (allocBuf_loop (2 * N.to_nat (numBufs (mgr w0))) 0 start ≠ OutOfFuel)
    as Hend.
  { apply allocBuf_loop_total; [done|simpl; lia|].
    pose proof (referenced_le (bufDescTable (mgr start))) as Hle.
    rewrite (wf_table _ Hwfs) in Hle. simpl in *. lia. }
  split; [done|].
  replace fuel
    with (2 * N.to_nat (numBufs (mgr w0))
          + (fuel - 2 * N.to_nat (numBufs (mgr w0))))%nat by lia.
  by apply allocBuf_loop_more_fuel.
Qed.

(** ** The hand goes round *)

Lemma advances_hand k : ∀ w,
  wf (mgr w) →
  advances k w =
  Normal tt
    (mkWorld (set_clockHand
                ((clockHand (mgr w) + N.of_nat k) mod numBufs (mgr w)) (mgr w))
             (calls w)).
Proof.
  induction k as [|k IH]; intros w Hwf.
  - simpl. unfold ret. f_equal. rewrite N.add_0_r.
    rewrite N.mod_small by apply Hwf. by destruct w as [[]].
  - cbn [advances]. unfold bind at 1. simpl.
    pose proof (wf_size _ Hwf). pose proof (wf_hand _ Hwf).
    rewrite IH by (by apply wf_advance). simpl. f_equal. f_equal.
    unfold set_clockHand. simpl. f_equal.
    unfold wrap32. rewrite (N.mod_small (clockHand (mgr w) + 1)) by lia.
    rewrite N.Div0.add_mod_idemp_l. f_equal. lia.
Qed.

(** X14. [advanceClock] moves the hand to the next frame and nothing else:
    after [k] calls the hand is [k] frames further round the pool, and
    after numBufs calls the manager is as it was. *)
Theorem advanceClock_goes_round (w : World) (k : nat) :
  reachable w →
  ∃ w', advances k w = Normal tt w' ∧
    clockHand (mgr w') =
      (clockHand (mgr w) + N.of_nat k) mod numBufs (mgr w) ∧
    clockHand (mgr w') < numBufs (mgr w) ∧
    bufDescTable (mgr w') = bufDescTable (mgr w) ∧
    bufPool (mgr w') = bufPool (mgr w) ∧
    hashTable (mgr w') = hashTable (mgr w) ∧
    calls w' = calls w ∧
    advances (N.to_nat (numBufs (mgr w))) w = Normal tt w.
Proof.
  intros Hreach. pose proof (reachable_wf w Hreach) as Hwf.
  pose proof (wf_size _ Hwf). pose proof (wf_hand _ Hwf).
  rewrite !advances_hand by done. eexists. split; [done|]. simpl.
  split; [done|]. split; [apply N.mod_lt; lia|]. do 4 (split; [done|]).
  f_equal. rewrite N2Nat.id.
  replace (clockHand (mgr w) + numBufs (mgr w))
    with (clockHand (mgr w) + 1 * numBufs (mgr w)) by lia.
  rewrite N.Div0.mod_add, N.mod_small by done. by destruct w as [[]].
Qed.

(** ** After BufferExceededException *)

(** The frame [k] places before [h] in a pool of [n]. *)
Lemma back_next n h k :
  h < n → 1 ≤ k ≤ n →
  ((h + 1) mod n + n - k) mod n = (h + n - (k - 1)) mod n.
Proof.
  intros Hh Hk. destruct (decide (h + 1 = n)) as [Heq|Hne].
  - rewrite Heq, N.Div0.mod_same.
    replace (h + n - (k - 1)) with (n - k + 1 * n) by lia.
    rewrite N.Div0.mod_add. f_equal; lia.
  - rewrite (N.mod_small (h + 1)) by lia. f_equal; lia.
Qed.

Lemma back_zero n h : h < n → (h + n - 0) mod n = h.
Proof.
  intros Hh. replace (h + n - 0) with (h + 1 * n) by lia.
  rewrite N.Div0.mod_add. by apply N.mod_small.
Qed.

Lemma back_reaches n h j :
  h < n → j < n → j ≠ h → ∃ k, 1 ≤ k ≤ n - 1 ∧ (h + n - k) mod n = j.
Proof.
  intros Hh Hj Hne. destruct (decide (j < h)) as [Hlt|Hge].
  - exists (h - j). split; [lia|].
    replace (h + n - (h - j)) with (j + 1 * n) by lia.
    rewrite N.Div0.mod_add. by apply N.mod_small.
  - exists (h + n - j). split; [lia|].
    replace (h + n - (h + n - j)) with j by lia. by apply N.mod_small.
Qed.

Lemma unreferenced_behind_next (m m1 : BufMgr) (hand n pinned : N) :
  hand < n → pinned + 1 ≤ n →
  refbit (desc_at m1 hand) = false →
  (∀ q, q ≠ hand → desc_at m1 q = desc_at m q) →
  (∀ k, 1 ≤ k ≤ pinned →
     refbit (desc_at m ((hand + n - k) mod n)) = false) →
  ∀ k, 1 ≤ k ≤ pinned + 1 →
    refbit (desc_at m1 (((hand + 1) mod n + n - k) mod n)) = false.
Proof.
  intros Hh Hp Hhand Hsame Hinv k Hk. rewrite back_next by lia.
  destruct (decide ((hand + n - (k - 1)) mod n = hand)) as [->|Hne];
    [done|].
  rewrite Hsame by done. apply Hinv.
  destruct (decide (k = 1)) as [->|]; [|lia].
  destruct Hne. replace (1 - 1) with 0 by lia. by apply back_zero.
Qed.

Lemma loop_throw_unreferenced fuel : ∀ pinned w e w',
  wf (mgr w) → pinned < numBufs (mgr w) →
  (∀ k, 1 ≤ k ≤ pinned →
     refbit (desc_at (mgr w)
               ((clockHand (mgr w) + numBufs (mgr w) - k)
                mod numBufs (mgr w))) = false) →
  allocBuf_loop fuel pinned w = Raised e w' →
  ∀ j, j < numBufs (mgr w) → refbit (desc_at (mgr w') j) = false.
Proof.
  induction fuel as [|fuel IH]; intros pinned w e w' Hwf Hpin Hinv; [done|].
  pose proof (wf_size _ Hwf) as Hsz. pose proof (wf_hand _ Hwf) as Hh.
  rewrite allocBuf_loop_S. cbv zeta.
  set (hand := clockHand (mgr w)) in *.
  set (n := numBufs (mgr w)) in *.
  set (d := desc_at (mgr w) hand).
  assert (wrap32 (hand + 1) = hand + 1) as ->.
  { unfold wrap32. apply N.mod_small. lia. }
  assert ((hand + 1) mod n < n) as Hnext by (apply N.mod_lt; lia).
  destruct (valid d) eqn:Hv; [|done].
  destruct (refbit d) eqn:Hr.
  - set (m1 := update_desc hand (with_refbit false) (mgr w)).
    assert (wf m1) as Hwf1.
    { apply wf_update_desc; [done|done|fold d; congruence]. }
    apply IH.
    + by apply wf_advance'.
    + done.
    + cbn [mgr clockHand numBufs set_clockHand]. fold n.
      intros k Hk. rewrite desc_at_set_clockHand.
      apply (unreferenced_behind_next (mgr w) m1 hand n pinned);
        [done|lia| | |done|lia].
      * unfold m1. rewrite desc_at_update_eq by (by apply wf_in_range). done.
      * intros q Hq. unfold m1. by rewrite desc_at_update_ne.
  - destruct (negb (pinCnt d =? 0)); [|].
    + assert (wrap32 (pinned + 1) = pinned + 1) as ->.
      { unfold wrap32. apply N.mod_small. lia. }
      destruct (pinned + 1 =? n) eqn:Hn.
      * apply N.eqb_eq in Hn. intros [= <- <-] j Hj.
        destruct (decide (j = hand)) as [->|Hne]; [done|].
        destruct (back_reaches n hand j Hh Hj Hne) as (k & Hk & <-).
        apply Hinv. lia.
      * apply N.eqb_neq in Hn. apply IH.
        -- by apply wf_advance'.
        -- cbn [mgr numBufs set_clockHand]. fold n. lia.
        -- cbn [mgr clockHand numBufs set_clockHand]. fold n.
           intros k Hk. rewrite desc_at_set_clockHand.
           apply (unreferenced_behind_next (mgr w) (mgr w) hand n pinned);
             [done|lia|done|done|done|done].
    + unfold bind at 1. unfold when. destruct (dirty d); done.
Qed.

Lemma allocBuf_throw_unreferenced w e w' :
  wf (mgr w) → allocBuf w = Raised e w' →
  ∀ j, refbit (desc_at (mgr w') j) = false.
Proof.
  intros Hwf Ha j. pose proof (wf_size _ Hwf) as Hsz.
  destruct (allocBuf_failure w e w' Ha) as (_ & Hs & _).
  assert (wf (mgr w')) as Hwf'.
  { pose proof (allocBuf_spec w Hwf) as Hspec. rewrite Ha in Hspec.
    apply Hspec. }
  destruct (decide (j < numBufs (mgr w))) as [Hj|Hj].
  - rewrite allocBuf_eq in Ha. set (w1 := mkWorld _ _) in Ha.
    destruct (allocBuf_loop (allocBuf_fuel (mgr w)) 0 w1) as [[] w2|e2 w2|]
      eqn:Hloop; [done| |done].
    injection Ha as -> ->.
    apply (loop_throw_unreferenced (allocBuf_fuel (mgr w)) 0 w1 e w');
      [| | |done|done].
    + by apply wf_advance.
    + unfold w1. simpl. lia.
    + intros k Hk. lia.
  - unfold desc_at. rewrite list_lookup_total_alt, lookup_ge_None_2; [done|].
    rewrite (wf_table _ Hwf'). destruct Hs as (-> & _). lia.
Qed.

Lemma reachable_after {A} (m : M A) (o : Op) w w' :
  reachable w → final (perform o w) = final (m w) →
  final (m w) = Some w' → reachable w'.
Proof. intros Hreach Heq Hfin. apply (reachable_step w o); congruence. Qed.

Lemma reachable_readPage f p page w w' :
  reachable w → final (readPage f p page w) = Some w' → reachable w'.
Proof.
  intros Hreach. apply (reachable_after _ (OpReadPage f p page)); [done|].
  apply final_discard.
Qed.

Lemma reachable_unPinPage f p b w w' :
  reachable w → final (unPinPage f p b w) = Some w' → reachable w'.
Proof.
  intros Hreach. by apply (reachable_after _ (OpUnPinPage f p b)).
Qed.

Lemma reachable_disposePage f p w w' :
  reachable w → final (disposePage f p w) = Some w' → reachable w'.
Proof.
  intros Hreach. by apply (reachable_after _ (OpDisposePage f p)).
Qed.

Lemma eligible_frame_gives_room_holds (w : World) (j : FrameId) :
  reachable w → j < numBufs (mgr w) →
  eligible (desc_at (mgr w) j) = true →
  (∀ f p page, hashTable (mgr w) !! (f, p) = None →
     ∃ i w', readPage f p page w = Normal (PtrSlot i) w') ∧
  (∀ f pn page, ∃ n i w', allocPage f pn page w = Normal (n, PtrSlot i) w').
Proof.
  intros Hreach Hj He. pose proof (reachable_wf w Hreach) as Hwf. split.
  - intros f p page Hl. rewrite (readPage_miss _ _ _ _ Hl).
    destruct (allocBuf_finds_eligible w j Hwf Hj He) as (i & w1 & ->).
    by eexists _, _.
  - intros f pn page. rewrite allocPage_eq. cbv zeta.
    set (w0 := mkWorld _ _).
    destruct (allocBuf_finds_eligible w0 j Hwf Hj He) as (i & w1 & ->).
    by eexists _, _, _.
Qed.

(** X9. Room: in any state the manager can reach, when some frame is
    invalid, or valid, unreferenced and unpinned, [readPage] of a page that
    is not cached returns, and so does [allocPage]. *)
Theorem eligible_frame_gives_room (w : World) (j : FrameId) :
  reachable w → j < numBufs (mgr w) →
  eligible (desc_at (mgr w) j) = true →
  (∀ f p page, hashTable (mgr w) !! (f, p) = None →
     ∃ i w', readPage f p page w = Normal (PtrSlot i) w') ∧
  (∀ f pn page, ∃ n i w', allocPage f pn page w = Normal (n, PtrSlot i) w').
Proof. apply eligible_frame_gives_room_holds. Qed.

(** X12. [disposePage] of a cached page frees its frame: right after it,
    [readPage] of any page that is not cached returns. *)
Theorem disposePage_makes_room (w : World) (g : File) (q : PageId)
    (i : FrameId) :
  reachable w → hashTable (mgr w) !! (g, q) = Some i →
  ∃ w1, disposePage g q w = Normal tt w1 ∧
    ∀ f p page, hashTable (mgr w1) !! (f, p) = None →
      ∃ j w2, readPage f p page w1 = Normal (PtrSlot j) w2.
Proof.
  intros Hreach Hl. pose proof (reachable_wf w Hreach) as Hwf.
  destruct (wf_index _ Hwf g q i Hl) as (Hi & _).
  pose proof (wf_in_range _ _ Hwf Hi) as Hr.
  rewrite disposePage_eq, Hl. eexists. split; [done|].
  set (w1 := mkWorld _ _).
  assert (reachable w1) as Hreach1.
  { apply (reachable_disposePage g q w); [done|].
    by rewrite disposePage_eq, Hl. }
  intros f p page Hmiss.
  apply (proj1 (eligible_frame_gives_room_holds w1 i Hreach1 Hi ltac:(
    unfold w1; cbn [mgr]; rewrite desc_at_update_eq by done; done))).
  done.
Qed.

Lemma retry_after_unpin_holds (w : World) (f : File) (p : PageId)
    (page : PagePtr) (e : Exn) (w1 : World) :
  reachable w → readPage f p page w = Raised e w1 →
  (∀ j, refbit (desc_at (mgr w1) j) = false) ∧
  ∀ g q b (i : FrameId),
    hashTable (mgr w1) !! (g, q) = Some i →
    pinCnt (desc_at (mgr w1) i) = 1 →
    ∃ w2, unPinPage g q b w1 = Normal tt w2 ∧
      ∀ page2, ∃ j w3, readPage f p page2 w2 = Normal (PtrSlot j) w3.
Proof.
  intros Hreach Hrun. pose proof (reachable_wf w Hreach) as Hwf.
  destruct (readPage_failure_harmless_holds w f p page e w1 Hrun)
    as (-> & Hmiss & Hc & Hs).
  assert (reachable w1) as Hreach1.
  { apply (reachable_readPage f p page w); [done|]. by rewrite Hrun. }
  pose proof (reachable_wf w1 Hreach1) as Hwf1.
  assert (∀ j, refbit (desc_at (mgr w1) j) = false) as Href.
  { rewrite (readPage_miss _ _ _ _ Hmiss) in Hrun.
    destruct (allocBuf w) as [i0 w0|e0 w0|] eqn:Ha; [done| |done].
    injection Hrun as -> ->.
    by apply (allocBuf_throw_unreferenced w BufferExceededException w1). }
  split; [done|]. intros g q b i Hl Hpin.
  destruct (wf_index _ Hwf1 g q i Hl) as (Hi & Hv & _).
  pose proof (wf_in_range _ _ Hwf1 Hi) as Hr.
  rewrite unPinPage_eq, Hl, Hpin. simpl. eexists. split; [done|].
  set (w2 := mkWorld _ _).
  assert (reachable w2) as Hreach2.
  { apply (reachable_unPinPage g q b w1); [done|].
    by rewrite unPinPage_eq, Hl, Hpin. }
  assert (hashTable (mgr w2) !! (f, p) = None) as Hmiss2.
  { unfold w2. cbn [mgr]. destruct Hs as (_ & _ & Hh & _).
    destruct b; simpl; by rewrite Hh. }
  assert (eligible (desc_at (mgr w2) i) = true) as He.
  { unfold w2, eligible. cbn [mgr]. destruct b.
    - rewrite desc_at_update_eq by (by rewrite length_update_desc).
      rewrite desc_at_update_eq by done. simpl.
      by rewrite Href, Hpin, orb_true_r.
    - rewrite desc_at_update_eq by done. simpl.
      by rewrite Href, Hpin, orb_true_r. }
  intros page2.
  apply (proj1 (eligible_frame_gives_room_holds w2 i Hreach2
                  ltac:(unfold w2; destruct b; exact Hi) He)).
  done.
Qed.

(** X11. After a [readPage] that has thrown, every frame is unreferenced; so
    as soon as one page's last pin is released with [unPinPage], the same
    [readPage] returns. *)
Theorem retry_after_unpin (w : World) (f : File) (p : PageId)
    (page : PagePtr) (e : Exn) (w1 : World) :
  reachable w → readPage f p page w = Raised e w1 →
  (∀ j, refbit (desc_at (mgr w1) j) = false) ∧
  ∀ g q b (i : FrameId),
    hashTable (mgr w1) !! (g, q) = Some i →
    pinCnt (desc_at (mgr w1) i) = 1 →
    ∃ w2, unPinPage g q b w1 = Normal tt w2 ∧
      ∀ page2, ∃ j w3, readPage f p page2 w2 = Normal (PtrSlot j) w3.
Proof. apply retry_after_unpin_holds. Qed.

(** ** A pool full of pinned pages *)

Lemma all_pinned_throws w :
  wf (mgr w) →
  (∀ j, j < numBufs (mgr w) → pinCnt (desc_at (mgr w) j) ≠ 0) →
  ∃ w', allocBuf w = Raised BufferExceededException w'.
Proof.
  intros Hwf Hall.
  pose proof (allocBuf_spec w Hwf) as Hspec.
  pose proof (allocBuf_terminates w Hwf) as Hterm.
  destruct (allocBuf w) as [i w1|e w1|]; [|by destruct Hspec as (-> & _); eexists|done].
  destruct Hspec as (_ & Hi & Hpin & _). by destruct (Hall i Hi).
Qed.

(** X10. Exhaustion: in any state the manager can reach in which every frame
    is pinned, [readPage] of a page that is not cached, and [allocPage],
    throw BufferExceededException.  Once the only pin of one cached page is
    released, the same [readPage] returns: it takes that page's frame,
    writes the page back first if it is dirty, and the page is out of the
    index. *)
Theorem pool_exhausted_until_unpin (w : World) (f : File) (p : PageId)
    (page : PagePtr) :
  reachable w →
  (∀ j, j < numBufs (mgr w) → pinCnt (desc_at (mgr w) j) ≠ 0) →
  hashTable (mgr w) !! (f, p) = None →
  (∀ pn, ∃ w1, allocPage f pn page w = Raised BufferExceededException w1) ∧
  ∃ w1, readPage f p page w = Raised BufferExceededException w1 ∧
    ∀ g q b (i : FrameId),
      hashTable (mgr w1) !! (g, q) = Some i →
      pinCnt (desc_at (mgr w1) i) = 1 →
      ∃ w2, unPinPage g q b w1 = Normal tt w2 ∧
        ∀ page2, ∃ w3,
          readPage f p page2 w2 = Normal (PtrSlot i) w3 ∧
          hashTable (mgr w3) !! (g, q) = None ∧
          hashTable (mgr w3) !! (f, p) = Some i ∧
          calls w3 = calls w ++
            (if b || dirty (desc_at (mgr w) i)
             then [CallWritePage g (pool_at (mgr w) i)] else [])
            ++ [CallReadPage f p].
Proof.
  intros Hreach Hall Hmiss. pose proof (reachable_wf w Hreach) as Hwf.
  split.
  { intros pn. rewrite allocPage_eq. cbv zeta. set (w0 := mkWorld _ _).
    destruct (all_pinned_throws w0 Hwf Hall) as (w1 & ->). by eexists. }
  destruct (all_pinned_throws w Hwf Hall) as (w1 & Ha).
  assert (readPage f p page w = Raised BufferExceededException w1) as Hrun.
  { by rewrite (readPage_miss _ _ _ _ Hmiss), Ha. }
  exists w1. split; [done|]. intros g q b i Hl Hpin.
  destruct (readPage_failure_harmless_holds w f p page _ w1 Hrun)
    as (_ & _ & Hc & Hs).
  destruct (retry_after_unpin_holds w f p page _ w1 Hreach Hrun) as [Href Hretry].
  destruct (Hretry g q b i Hl Hpin) as (w2 & Hunpin & Hagain).
  exists w2. split; [done|]. intros page2.
  destruct (Hagain page2) as (j & w3 & Hread).
  assert (reachable w1) as Hreach1.
  { apply (reachable_readPage f p page w); [done|]. by rewrite Hrun. }
  pose proof (reachable_wf w1 Hreach1) as Hwf1.
  assert (reachable w2) as Hreach2.
  { apply (reachable_unPinPage g q b w1); [done|]. by rewrite Hunpin. }
  destruct (wf_index _ Hwf1 g q i Hl) as (Hi & Hv & Hf & Hp).
  pose proof (wf_in_range _ _ Hwf1 Hi) as Hr.
  (* the manager after the unpin *)
  rewrite unPinPage_eq, Hl, Hpin in Hunpin. simpl in Hunpin.
  injection Hunpin as Hw2.
  assert (hashTable (mgr w2) = hashTable (mgr w1) ∧
          numBufs (mgr w2) = numBufs (mgr w1) ∧
          bufPool (mgr w2) = bufPool (mgr w1) ∧ calls w2 = calls w1 ∧
          desc_at (mgr w2) i =
            with_dirty (b || dirty (desc_at (mgr w1) i))
              (with_pinCnt 0 (desc_at (mgr w1) i)) ∧
          ∀ k, k ≠ i → desc_at (mgr w2) k = desc_at (mgr w1) k)
    as (Hh2 & Hn2 & Hp2 & Hc2 & Hd2 & Ho2).
  { rewrite <- Hw2. cbn [mgr calls]. destruct b; simpl.
    - do 4 (split; [done|]). split.
      + rewrite desc_at_update_eq by (by rewrite length_update_desc).
        rewrite desc_at_update_eq by done. by rewrite Hpin.
      + intros k Hk. by rewrite !desc_at_update_ne by done.
    - do 4 (split; [done|]). split.
      + rewrite desc_at_update_eq by done. rewrite Hpin.
        by destruct (desc_at (mgr w1) i).
      + intros k Hk. by rewrite desc_at_update_ne by done. }
  assert (hashTable (mgr w2) !! (f, p) = None) as Hmiss2.
  { rewrite Hh2. destruct Hs as (_ & _ & -> & _). done. }
  destruct (readPage_miss_loads_holds w2 f p page2 _ w3 Hreach2 Hmiss2 Hread)
    as (j' & [= <-] & Hj & Hpin0 & Hcalls & Hht & _).
  (* the frame taken is the unpinned one *)
  assert (j = i) as ->.
  { destruct (decide (j = i)) as [|Hne]; [done|]. exfalso.
    rewrite Ho2 in Hpin0 by done.
    destruct (swept_field _ _ j Hs) as (_ & _ & _ & Hpj & _).
    rewrite Hpj in Hpin0. apply (Hall j); [|done].
    destruct Hs as (Hn & _). lia. }
  destruct (swept_field _ _ i Hs) as (_ & _ & _ & _ & Hdirty & _).
  pose proof (swept_pool_at _ _ i Hs) as Hpool.
  assert (evict_entry (desc_at (mgr w2) i) (hashTable (mgr w2))
          = delete (g, q) (hashTable (mgr w1))) as Hev.
  { unfold evict_entry. rewrite Hd2, Hh2. simpl. by rewrite Hv, Hf, Hp. }
  assert (write_back (desc_at (mgr w2) i) (pool_at (mgr w2) i)
          = if b || dirty (desc_at (mgr w) i)
            then [CallWritePage g (pool_at (mgr w) i)] else []) as Hwb.
  { unfold write_back, pool_at. rewrite Hd2, Hp2. simpl.
    rewrite Hv, Hf, Hdirty. fold (pool_at (mgr w1) i). by rewrite Hpool. }
  exists w3. split; [done|]. rewrite Hht, Hev.
  split.
  { rewrite lookup_insert_ne; [apply lookup_delete_eq|].
    intros [= -> ->]. destruct Hs as (_ & _ & Hh & _).
    rewrite Hh in Hl. congruence. }
  split; [apply lookup_insert_eq|].
  by rewrite Hcalls, Hwb, Hc2, Hc.
Qed.

(** ** flushFile on a file with no page in the pool *)

Lemma for_frames_flush_skips f w : ∀ count (k : FrameId),
  (∀ i, k ≤ i < k + N.of_nat count → file (desc_at (mgr w) i) ≠ f) →
  for_frames count k (flushFile_body f) w = Normal tt w.
Proof.
  induction count as [|count IH]; intros k Hnone; [done|].
  cbn [for_frames]. unfold bind at 1. rewrite flushFile_body_eq. cbv zeta.
  assert ((file (desc_at (mgr w) k) =? f) = false) as ->.
  { apply N.eqb_neq, Hnone. lia. }
  apply IH. intros i Hi. apply Hnone. lia.
Qed.

(** X15. [flushFile] of a file none of whose pages is in the pool returns,
    calls no file and changes nothing, whatever else the pool holds. *)
Theorem flushFile_nothing_cached (w : World) (f : File) :
  (∀ i, i < numBufs (mgr w) → file (desc_at (mgr w) i) ≠ f) →
  flushFile f w = Normal tt w.
Proof.
  intros Hnone. unfold flushFile. unfold bind at 1. simpl.
  apply for_frames_flush_skips. intros i Hi. apply Hnone. lia.
Qed.

(** ** Who moves the hand *)

Lemma flushFile_body_hand f i w w' :
  final (flushFile_body f i w) = Some w' →
  clockHand (mgr w') = clockHand (mgr w) ∧ numBufs (mgr w') = numBufs (mgr w).
Proof.
  rewrite flushFile_body_eq. cbv zeta.
  destruct (file _ =? f); [|by intros [= <-]].
  destruct (negb _); [by intros [= <-]|].
  destruct (valid _); [by intros [= <-]|].
  intros [= <-]. by destruct (dirty _).
Qed.

Lemma for_frames_flush_hand f : ∀ count k w w',
  final (for_frames count k (flushFile_body f) w) = Some w' →
  clockHand (mgr w') = clockHand (mgr w) ∧ numBufs (mgr w') = numBufs (mgr w).
Proof.
  induction count as [|count IH]; intros k w w'.
  - simpl. by intros [= <-].
  - cbn [for_frames]. unfold bind at 1.
    pose proof (flushFile_body_hand f k w) as Hb.
    destruct (flushFile_body f k w) as [[] w1|e w1|]; [| |done].
    + intros Hrest. destruct (Hb w1 eq_refl) as [H1 H2].
      destruct (IH (k + 1) w1 w' Hrest) as [H3 H4]. split; congruence.
    + simpl. intros [= <-]. by apply Hb.
Qed.

(** X13. No call changes the size of the pool, and the hand moves only when
    a frame is looked for: [unPinPage], [flushFile], [disposePage] and a
    [readPage] of a cached page leave it where it was. *)
Theorem hand_moves_only_for_a_frame (o : Op) (w w' : World) :
  final (perform o w) = Some w' →
  numBufs (mgr w') = numBufs (mgr w) ∧
  match o with
  | OpReadPage f p _ =>
      is_Some (hashTable (mgr w) !! (f, p)) →
      clockHand (mgr w') = clockHand (mgr w)
  | OpAllocPage _ _ _ => True
  | _ => clockHand (mgr w') = clockHand (mgr w)
  end.
Proof.
  destruct o as [f p page|f p b|f|f p page|f p]; cbn [perform].
  - rewrite final_discard.
    destruct (hashTable (mgr w) !! (f, p)) as [i|] eqn:Hl.
    + rewrite (readPage_hit _ _ _ _ _ Hl). by intros [= <-].
    + rewrite (readPage_miss _ _ _ _ Hl).
      destruct (allocBuf w) as [i w1|e w1|] eqn:Ha; [| |done].
      * destruct (allocBuf_effect w i w1 Ha) as (_ & _ & _ & _ & Hn & _).
        intros [= <-]. split; [done|]. by intros [? ?].
      * destruct (allocBuf_failure w e w1 Ha) as (_ & (Hn & _) & _).
        intros [= <-]. split; [done|]. by intros [? ?].
  - rewrite unPinPage_eq.
    destruct (hashTable (mgr w) !! (f, p)) as [i|]; [|by intros [= <-]].
    destruct (pinCnt _ =? 0); [by intros [= <-]|].
    intros [= <-]. by destruct b.
  - unfold flushFile. unfold bind at 1. simpl. intros Hfin.
    destruct (for_frames_flush_hand f _ _ _ _ Hfin). done.
  - rewrite final_discard, allocPage_eq. cbv zeta. set (w0 := mkWorld _ _).
    destruct (allocBuf w0) as [i w1|e w1|] eqn:Ha; [| |done].
    + destruct (allocBuf_effect w0 i w1 Ha) as (_ & _ & _ & _ & Hn & _).
      by intros [= <-].
    + destruct (allocBuf_failure w0 e w1 Ha) as (_ & (Hn & _) & _).
      by intros [= <-].
  - rewrite disposePage_eq. intros [= <-]. cbn [mgr].
    by destruct (hashTable (mgr w) !! (f, p)).
Qed.
End MoreFacts.

(** * More runs on concrete inputs *)

Section MoreExamples.
Local Existing Instance sample_files.

Ltac reached :=
  lazymatch goal with
  | |- reachable (World_new _) => apply reachable_new; split; reflexivity
  | |- reachable (step ?o ?w) =>
      apply (reachable_step w o); [reached | vm_compute; reflexivity]
  | |- reachable ?c => unfold c; reached
  end.

Ltac frame_cases j Hj :=
  assert (j = 0 ∨ j = 1) as [-> | ->] by lia.


Lemma readPage_failure_harmless_witness :
  readPage 1 3 (PtrOther 0) two_pages =
    Raised BufferExceededException two_pages_refused ∧
  BufferExceededException = BufferExceededException ∧
  hashTable (mgr two_pages) !! (1, 3) = None ∧
  calls two_pages_refused = calls two_pages ∧
  swept (mgr two_pages) (mgr two_pages_refused).
Proof.
  assert (readPage 1 3 (PtrOther 0) two_pages =
            Raised BufferExceededException two_pages_refused) as H1
    by (vm_compute; reflexivity).
  split; [exact H1|].
  exact (readPage_failure_harmless two_pages 1 3 (PtrOther 0) _ _ H1).
Defined.

Lemma readPage_then_hit_witness :
  reachable (World_new 1) ∧
  readPage 1 1 (PtrOther 0) (World_new 1) =
    Normal (PtrSlot 0) one_pinned_page ∧
  ∃ i : FrameId,
    hashTable (mgr one_pinned_page) !! (1, 1) = Some i ∧
    i < numBufs (mgr one_pinned_page) ∧
    valid (desc_at (mgr one_pinned_page) i) = true ∧
    refbit (desc_at (mgr one_pinned_page) i) = true ∧
    file (desc_at (mgr one_pinned_page) i) = 1 ∧
    pageNo (desc_at (mgr one_pinned_page) i) = 1 ∧
    0 < pinCnt (desc_at (mgr one_pinned_page) i) ∧
    ∀ page2, ∃ w'',
      readPage 1 1 page2 one_pinned_page = Normal page2 w'' ∧
      calls w'' = calls one_pinned_page ∧
      hashTable (mgr w'') = hashTable (mgr one_pinned_page) ∧
      bufPool (mgr w'') = bufPool (mgr one_pinned_page) ∧
      pinCnt (desc_at (mgr w'') i) =
        pinCnt (desc_at (mgr one_pinned_page) i) + 1.
Proof.
  assert (reachable (World_new 1)) as H1 by reached.
  assert (readPage 1 1 (PtrOther 0) (World_new 1) =
            Normal (PtrSlot 0) one_pinned_page) as H2
    by (vm_compute; reflexivity).
  split; [exact H1|]. split; [exact H2|].
  exact (readPage_then_hit (World_new 1) 1 1 (PtrOther 0) (PtrSlot 0)
           one_pinned_page H1 H2).
Defined.

Lemma destructor_writes_dirty_witness :
  reachable one_dirty_page ∧
  ∃ w', destroy_flush one_dirty_page = Normal tt w' ∧
    calls w' = calls one_dirty_page ++
      dirty_writes (bufDescTable (mgr one_dirty_page))
                   (bufPool (mgr one_dirty_page)) ∧
    (∀ i, desc_at (mgr w') i =
          with_dirty false (desc_at (mgr one_dirty_page) i)) ∧
    bufPool (mgr w') = bufPool (mgr one_dirty_page) ∧
    hashTable (mgr w') = hashTable (mgr one_dirty_page) ∧
    clockHand (mgr w') = clockHand (mgr one_dirty_page) ∧
    ∃ w'', BufMgr_destroy one_dirty_page = Normal tt w'' ∧
      calls w'' = calls w' ∧
      bufPool (mgr w'') = [] ∧ bufDescTable (mgr w'') = [].
Proof.
  assert (reachable one_dirty_page) as H1 by reached.
  split; [exact H1|]. exact (destructor_writes_dirty one_dirty_page H1).
Defined.

Lemma destructor_flushes_cached_dirty_witness :
  reachable one_dirty_page ∧
  hashTable (mgr one_dirty_page) !! (1, 1) = Some 0 ∧
  dirty (desc_at (mgr one_dirty_page) 0) = true ∧
  ∃ w', BufMgr_destroy one_dirty_page = Normal tt w' ∧
    ∃ written, calls w' = calls one_dirty_page ++ written ∧
      CallWritePage 1 (pool_at (mgr one_dirty_page) 0) ∈ written.
Proof.
  assert (reachable one_dirty_page) as H1 by reached.
  assert (hashTable (mgr one_dirty_page) !! (1, 1) = Some 0) as H2
    by (vm_compute; reflexivity).
  assert (dirty (desc_at (mgr one_dirty_page) 0) = true) as H3
    by (vm_compute; reflexivity).
  split; [exact H1|]. split; [exact H2|]. split; [exact H3|].
  exact (destructor_flushes_cached_dirty one_dirty_page 1 1 0 H1 H2 H3).
Defined.

Lemma index_frames_distinct_witness :
  reachable two_pages ∧
  hashTable (mgr two_pages) !! (1, 2) = Some 1 ∧
  (1, 2) = (1, 2).
Proof.
  assert (reachable two_pages) as H1 by reached.
  assert (hashTable (mgr two_pages) !! (1, 2) = Some 1) as H2
    by (vm_compute; reflexivity).
  split; [exact H1|]. split; [exact H2|].
  exact (index_frames_distinct two_pages 1 1 2 2 1 H1 H2 H2).
Defined.

Lemma printSelf_total_witness :
  reachable two_pages ∧
  printSelf (mgr two_pages) =
    ((λ i, OutFrame i (desc_at (mgr two_pages) i)) <$>
       frame_range 0 (N.to_nat (numBufs (mgr two_pages))))
    ++ [OutTotal (Z.of_nat (length
          (valid_frames (mgr two_pages) 0
             (N.to_nat (numBufs (mgr two_pages))))))] ∧
  (Z.of_nat (size (hashTable (mgr two_pages))) ≤
   Z.of_nat (length (valid_frames (mgr two_pages) 0
                       (N.to_nat (numBufs (mgr two_pages)))))
   ≤ Z.of_N (numBufs (mgr two_pages)))%Z.
Proof.
  assert (reachable two_pages) as H1 by reached.
  split; [exact H1|]. exact (printSelf_total two_pages H1).
Defined.

Lemma constructor_first_frame_witness :
  0 < 2 < 2 ^ 32 ∧
  ∃ w', readPage 1 5 (PtrOther 0) (World_new 2) = Normal (PtrSlot 0) w' ∧
    calls w' = [CallReadPage 1 5] ∧
    clockHand (mgr w') = 0 ∧
    hashTable (mgr w') = {[ (1, 5) := 0 ]} ∧
    pool_at (mgr w') 0 = readPage_result [] 1 5 ∧
    desc_at (mgr w') 0 = mkBufDesc 1 5 0 1 false true true.
Proof.
  assert (0 < 2 < 2 ^ 32) as H1 by (split; reflexivity).
  split; [exact H1|].
  exact (proj2 (proj2 (proj2 (proj2 (proj2 (proj2
           (constructor_first_frame 2 1 5 (PtrOther 0) H1))))))).
Defined.

Lemma manager_invariant_witness :
  reachable two_pages ∧
  0 < numBufs (mgr two_pages) < 2 ^ 32 ∧
  clockHand (mgr two_pages) < numBufs (mgr two_pages).
Proof.
  assert (reachable two_pages) as H1 by reached.
  split; [exact H1|].
  destruct (manager_invariant two_pages H1) as (Hs & _ & _ & Hh & _).
  exact (conj Hs Hh).
Defined.

Lemma allocBuf_loop_bounded_witness :
  reachable two_pages ∧ mgr two_pages = mgr two_pages ∧
  (2 * N.to_nat (numBufs (mgr two_pages)) ≤ 10)%nat ∧
  allocBuf_loop (2 * N.to_nat (numBufs (mgr two_pages))) 0
    (run advanceClock two_pages) ≠ OutOfFuel ∧
  allocBuf_loop 10 0 (run advanceClock two_pages) =
  allocBuf_loop (2 * N.to_nat (numBufs (mgr two_pages))) 0
    (run advanceClock two_pages).
Proof.
  assert (reachable two_pages) as H1 by reached.
  assert (2 * N.to_nat (numBufs (mgr two_pages)) ≤ 10)%nat as H3
    by (vm_compute; lia).
  split; [exact H1|]. split; [reflexivity|]. split; [exact H3|].
  exact (allocBuf_loop_bounded two_pages two_pages 10 H1 eq_refl H3).
Defined.

Lemma advanceClock_goes_round_witness :
  reachable two_pages ∧
  ∃ w', advances 3 two_pages = Normal tt w' ∧
    clockHand (mgr w') =
      (clockHand (mgr two_pages) + N.of_nat 3) mod numBufs (mgr two_pages) ∧
    clockHand (mgr w') < numBufs (mgr two_pages) ∧
    bufDescTable (mgr w') = bufDescTable (mgr two_pages) ∧
    bufPool (mgr w') = bufPool (mgr two_pages) ∧
    hashTable (mgr w') = hashTable (mgr two_pages) ∧
    calls w' = calls two_pages ∧
    advances (N.to_nat (numBufs (mgr two_pages))) two_pages =
      Normal tt two_pages.
Proof.
  assert (reachable two_pages) as H1 by reached.
  split; [exact H1|]. exact (advanceClock_goes_round two_pages 3 H1).
Defined.

Lemma eligible_frame_gives_room_witness :
  reachable (World_new 2) ∧ 1 < numBufs (mgr (World_new 2)) ∧
  eligible (desc_at (mgr (World_new 2)) 1) = true ∧
  (∀ f p page, hashTable (mgr (World_new 2)) !! (f, p) = None →
     ∃ i w', readPage f p page (World_new 2) = Normal (PtrSlot i) w') ∧
  (∀ f pn page, ∃ n i w',
     allocPage f pn page (World_new 2) = Normal (n, PtrSlot i) w').
Proof.
  assert (reachable (World_new 2)) as H1 by reached.
  assert (1 < numBufs (mgr (World_new 2))) as H2 by reflexivity.
  assert (eligible (desc_at (mgr (World_new 2)) 1) = true) as H3
    by reflexivity.
  split; [exact H1|]. split; [exact H2|]. split; [exact H3|].
  exact (eligible_frame_gives_room (World_new 2) 1 H1 H2 H3).
Defined.

Lemma disposePage_makes_room_witness :
  reachable two_pages ∧
  hashTable (mgr two_pages) !! (1, 1) = Some 0 ∧
  ∃ w1, disposePage 1 1 two_pages = Normal tt w1 ∧
    ∀ f p page, hashTable (mgr w1) !! (f, p) = None →
      ∃ j w2, readPage f p page w1 = Normal (PtrSlot j) w2.
Proof.
  assert (reachable two_pages) as H1 by reached.
  assert (hashTable (mgr two_pages) !! (1, 1) = Some 0) as H2
    by (vm_compute; reflexivity).
  split; [exact H1|]. split; [exact H2|].
  exact (disposePage_makes_room two_pages 1 1 0 H1 H2).
Defined.

Lemma retry_after_unpin_witness :
  reachable two_pages ∧
  readPage 1 3 (PtrOther 0) two_pages =
    Raised BufferExceededException two_pages_refused ∧
  (∀ j, refbit (desc_at (mgr two_pages_refused) j) = false) ∧
  ∀ g q b (i : FrameId),
    hashTable (mgr two_pages_refused) !! (g, q) = Some i →
    pinCnt (desc_at (mgr two_pages_refused) i) = 1 →
    ∃ w2, unPinPage g q b two_pages_refused = Normal tt w2 ∧
      ∀ page2, ∃ j w3, readPage 1 3 page2 w2 = Normal (PtrSlot j) w3.
Proof.
  assert (reachable two_pages) as H1 by reached.
  assert (readPage 1 3 (PtrOther 0) two_pages =
            Raised BufferExceededException two_pages_refused) as H2
    by (vm_compute; reflexivity).
  split; [exact H1|]. split; [exact H2|].
  exact (retry_after_unpin two_pages 1 3 (PtrOther 0) _ _ H1 H2).
Defined.

Lemma pool_exhausted_until_unpin_witness :
  reachable two_pages ∧
  (∀ j, j < numBufs (mgr two_pages) →
     pinCnt (desc_at (mgr two_pages) j) ≠ 0) ∧
  hashTable (mgr two_pages) !! (1, 3) = None ∧
  ∃ w1, readPage 1 3 (PtrOther 0) two_pages =
          Raised BufferExceededException w1.
Proof.
  assert (reachable two_pages) as H1 by reached.
  assert (∀ j, j < numBufs (mgr two_pages) →
            pinCnt (desc_at (mgr two_pages) j) ≠ 0) as H2.
  { intros j Hj. change (numBufs (mgr two_pages)) with 2 in Hj.
    frame_cases j Hj; vm_compute; discriminate. }
  assert (hashTable (mgr two_pages) !! (1, 3) = None) as H3
    by (vm_compute; reflexivity).
  split; [exact H1|]. split; [exact H2|]. split; [exact H3|].
  destruct (pool_exhausted_until_unpin two_pages 1 3 (PtrOther 0) H1 H2 H3)
    as (_ & w1 & Hrun & _).
  exists w1. exact Hrun.
Defined.

Lemma flushFile_nothing_cached_witness :
  (∀ i, i < numBufs (mgr two_pages) →
     file (desc_at (mgr two_pages) i) ≠ 2) ∧
  flushFile 2 two_pages = Normal tt two_pages.
Proof.
  assert (∀ i, i < numBufs (mgr two_pages) →
            file (desc_at (mgr two_pages) i) ≠ 2) as H1.
  { intros j Hj. change (numBufs (mgr two_pages)) with 2 in Hj.
    frame_cases j Hj; vm_compute; discriminate. }
  split; [exact H1|]. exact (flushFile_nothing_cached two_pages 2 H1).
Defined.

Lemma hand_moves_only_for_a_frame_witness :
  final (perform (OpUnPinPage 1 1 true) one_pinned_page)
    = Some one_dirty_page ∧
  numBufs (mgr one_dirty_page) = numBufs (mgr one_pinned_page) ∧
  clockHand (mgr one_dirty_page) = clockHand (mgr one_pinned_page).
Proof.
  assert (final (perform (OpUnPinPage 1 1 true) one_pinned_page)
            = Some one_dirty_page) as H1 by (vm_compute; reflexivity).
  split; [exact H1|].
  exact (hand_moves_only_for_a_frame (OpUnPinPage 1 1 true)
           one_pinned_page one_dirty_page H1).
Defined.

End MoreExamples.
